(** * relay-core: the segment-proxy and content-enricher traffic plugins

    A shallow embedding of
      relay/plugins/traffic/segment-proxy-plugin/segment_proxy_plugin.go
      relay/plugins/traffic/content-enricher-plugin/content-enricher-plugin.go
    and of the later variant of the segment-proxy handler that is carried
    next to segment_proxy_plugin_test.go.

    A handler call is modelled by explicit state passing: the state holds the
    request the handler received by pointer, what was written to the
    response writer, and the lines sent to the package logger.  The calls
    into the Go standard library (encoding/json, compress/gzip, net/http)
    are collected in the record [GoLib]; the plugins are defined, and the
    general theorems are proved, for every such library.  [Std.lib] is an
    executable instance used to run the handlers on concrete requests. *)

From stdpp Require Import gmap strings list fin_maps sorting.
From Stdlib Require Import ZArith Ascii.
From Stdlib.Strings Require Import Byte.

#[local] Set Warnings "-register-all".
#[local] Open Scope Z_scope.

(** ** Go values *)

(** [[]byte] *)
Abbreviation bytes := (list byte).

Definition bytes_of_string (s : string) : bytes := String.list_byte_of_string s.
Definition string_of_bytes (b : bytes) : string := String.string_of_list_byte b.

#[global] Instance byte_eq_decision : EqDecision byte := Byte.byte_eq_dec.

(** [len(b)] as an [int64] *)
Definition len (b : bytes) : Z := Z.of_nat (length b).

(** [interface{}] values as they reach [json.Marshal]: what the decoder
    produces for a JSON document, plus the [int64] of [time.Now().Unix()].
    A [float64] is carried as its decimal literal. *)
Inductive value : Type :=
| Nil
| Bool (b : bool)
| Int64 (n : Z)
| Float64 (lit : string)
| Str (s : string)
| Slice (l : list value)
| Map (m : gmap string value).

(** A variable of type [map[string]interface{}].  Reading a nil map finds
    nothing; assigning into it panics. *)
Inductive gomap : Type :=
| NilMap
| MakeMap (m : gmap string value).

(** the map as an [interface{}] *)
Definition gomap_value (m : gomap) : value :=
  match m with
  | NilMap => Nil
  | MakeMap m => Map m
  end.

(** ** net/http *)

Module textproto.

Definition code (c : ascii) : N := N_of_ascii c.

Definition is_lower (c : ascii) : bool := (97 <=? code c)%N && (code c <=? 122)%N.
Definition is_upper (c : ascii) : bool := (65 <=? code c)%N && (code c <=? 90)%N.
Definition is_digit (c : ascii) : bool := (48 <=? code c)%N && (code c <=? 57)%N.

(** the bytes of an RFC 7230 token *)
Definition validHeaderFieldByte (c : ascii) : bool :=
  is_lower c || is_upper c || is_digit c
  || bool_decide (code c ∈ [33; 35; 36; 37; 38; 39; 42; 43; 45; 46; 94; 95; 96; 124; 126]%N).

Definition toLower : N := 32.

Fixpoint all_valid (s : string) : bool :=
  match s with
  | EmptyString => true
  | String c s' => validHeaderFieldByte c && all_valid s'
  end.

Fixpoint canonicalize (upper : bool) (s : string) : string :=
  match s with
  | EmptyString => EmptyString
  | String c s' =>
      let c' :=
        if upper && is_lower c then ascii_of_N (code c - toLower)
        else if negb upper && is_upper c then ascii_of_N (code c + toLower)
        else c in
      String c' (canonicalize (bool_decide (code c' = 45%N)) s')
  end.

(** A key holding a byte outside the token alphabet is returned as it is;
    otherwise the first letter and every letter after a hyphen are made
    upper case and the others lower case. *)
Definition CanonicalMIMEHeaderKey (s : string) : string :=
  if all_valid s then canonicalize true s else s.

End textproto.

(** [http.Header], a [map[string][]string] *)
Abbreviation Header := (gmap string (list string)).

Definition Header_Get (h : Header) (key : string) : string :=
  match h !! textproto.CanonicalMIMEHeaderKey key with
  | Some (v :: _) => v
  | _ => ""
  end.

Definition Header_Set (h : Header) (key value : string) : Header :=
  <[textproto.CanonicalMIMEHeaderKey key := [value]]> h.

Definition Header_Add (h : Header) (key value : string) : Header :=
  let k := textproto.CanonicalMIMEHeaderKey key in
  <[k := default [] (h !! k) ++ [value]]> h.

(** An [io.ReadCloser] used as a request body: [http.NoBody], or a stream
    that yields [unread] and then ends, with [io.EOF] or ([fails]) with a
    read error. *)
Inductive ReadCloser : Type :=
| NoBody
| Reader (unread : bytes) (fails : bool).

(** [io.NopCloser(bytes.NewReader(b))], [io.NopCloser(bytes.NewBuffer(b))] *)
Definition NewReader (b : bytes) : ReadCloser := Reader b false.

(** [io.ReadAll]: the bytes read, and whether an error came with them. *)
Definition io_ReadAll (r : ReadCloser) : bytes * bool :=
  match r with
  | NoBody => ([], false)
  | Reader unread fails => (unread, fails)
  end.

(** the stream once [io.ReadAll] has consumed it *)
Definition drained (r : ReadCloser) : ReadCloser :=
  match r with
  | NoBody => NoBody
  | Reader _ fails => Reader [] fails
  end.

(** [url.URL]: scheme, host, path, and the query as [URL.Query()] parses
    it, in order *)
Record URL : Type := mkURL {
  Scheme : string;
  Host : string;
  Path : string;
  Query : list (string * string)
}.

(** [url.Values.Get]: the first value stored under the key, or the empty string *)
Fixpoint Values_Get (q : list (string * string)) (key : string) : string :=
  match q with
  | [] => ""
  | (k, v) :: q' => if bool_decide (k = key) then v else Values_Get q' key
  end.

(** [http.Request], the fields the plugins touch *)
Record Request : Type := mkRequest {
  Method : string;
  Url : URL;
  Headers : Header;
  Body : option ReadCloser;
  ContentLength : Z;
  TLS : bool
}.

Definition URL_with_Path (u : URL) (p : string) : URL :=
  mkURL (Scheme u) (Host u) p (Query u).
Definition URL_with_Scheme (u : URL) (scheme : string) : URL :=
  mkURL scheme (Host u) (Path u) (Query u).

Definition with_Path (r : Request) (p : string) : Request :=
  mkRequest (Method r) (URL_with_Path (Url r) p) (Headers r) (Body r) (ContentLength r) (TLS r).
Definition with_Method (r : Request) (m : string) : Request :=
  mkRequest m (Url r) (Headers r) (Body r) (ContentLength r) (TLS r).
Definition with_Headers (r : Request) (h : Header) : Request :=
  mkRequest (Method r) (Url r) h (Body r) (ContentLength r) (TLS r).
Definition with_Body (r : Request) (b : option ReadCloser) : Request :=
  mkRequest (Method r) (Url r) (Headers r) b (ContentLength r) (TLS r).
Definition with_ContentLength (r : Request) (n : Z) : Request :=
  mkRequest (Method r) (Url r) (Headers r) (Body r) n (TLS r).

(** [http.NewRequest(method, u.String(), bytes.NewReader(body))], once the
    URL text has been accepted: no header, the body behind a fresh reader,
    its length as [ContentLength]. *)
Definition http_NewRequest (method : string) (u : URL) (body : bytes) : Request :=
  mkRequest method u ∅ (Some (NewReader body)) (len body) false.

(** [http.Client]: [Do] answers with a status code, or fails ([None]). *)
Record Client : Type := mkClient { Do : Request → option Z }.

(** What a handler did to its [http.ResponseWriter]; the plugins write
    only through [http.Error]. *)
Inductive response_write : Type :=
| http_Error (error : string) (code : Z).

Definition StatusInternalServerError : Z := 500.

(** Modelled from the spec: [traffic.RequestInfo] (package [traffic] is
    not part of these sources), the "mutable RequestInfo token that carries
    a serviced flag". *)
Record RequestInfo : Type := mkRequestInfo { Serviced : bool }.

(** The state a handler call runs on: the request behind the pointer, the
    writes to the response writer, the logger calls (each recorded by its
    format string), and the requests the handler itself sent out through an
    HTTP client. *)
Record state : Type := mkState {
  request : Request;
  response : list response_write;
  logged : list string;
  sent : list Request
}.

Definition set_request (s : state) (r : Request) : state :=
  mkState r (response s) (logged s) (sent s).
Definition logger_Printf (s : state) (format : string) : state :=
  mkState (request s) (response s) (logged s ++ [format]) (sent s).
Definition write_Error (s : state) (error : string) (code : Z) : state :=
  mkState (request s) (response s ++ [http_Error error code]) (logged s) (sent s).
Definition send (s : state) (r : Request) : state :=
  mkState (request s) (response s) (logged s) (sent s ++ [r]).

(** How a call of [HandleRequest] ends: it returns its [bool], or the
    goroutine panics. *)
Inductive outcome : Type :=
| Returns (serviced : bool) (s : state)
| Panics (s : state).

(** [fmt.Sprintf("%d", n)] *)
Module fmt.

Definition digit (n : Z) : ascii := ascii_of_N (Z.to_N (48 + n)).

Fixpoint digits (fuel : nat) (n : Z) (acc : string) : string :=
  match fuel with
  | O => acc
  | S fuel' =>
      let acc' := String (digit (n mod 10)) acc in
      if n <? 10 then acc' else digits fuel' (n / 10) acc'
  end.

Definition Sprintf_d (n : Z) : string :=
  if n <? 0 then String "-" (digits (Z.to_nat (Z.log2 (- n)) + 1) (- n) "")
  else digits (Z.to_nat (Z.log2 n) + 1) n "".

End fmt.

(** ** The Go standard library, as the plugins call it *)

(** segment_proxy_plugin.go: the types the body is decoded into.  [Args] is
    a [json.RawMessage], the bytes of the member's value (empty when the
    member is absent). *)
Record Event : Type := mkEvent {
  Kind : Z;
  Args : bytes;
  When : Z
}.

Record SegmentData : Type := mkSegmentData {
  Seq : Z;
  SegmentData_When : Z;
  WriteKey : string;
  Evts : list Event
}.

(** [gzip.NewReader] followed by [io.ReadAll] on the reader *)
Inductive gzip_result : Type :=
| gzip_NewReader_error
| gzip_ReadAll_error
| gzip_content (content : bytes).

(** [json.Unmarshal] at the three types the plugins decode into ([None] is
    a non-nil error), [json.Marshal], the gzip reader, and whether
    [http.NewRequest] accepts the text of a URL. *)
Record GoLib : Type := mkGoLib {
  json_Unmarshal_SegmentData : bytes → option SegmentData;
  json_Unmarshal_strings : bytes → option (list string);
  json_Unmarshal_map : bytes → option gomap;
  json_Marshal : value → option bytes;
  gzip_decode : bytes → gzip_result;
  url_accepted : URL → bool
}.

(** ** segment_proxy_plugin.go *)

Module segment_proxy_plugin.

Definition pluginName : string := "segment-proxy".

Definition navigateEvent : Z := 37.

(** the [map[string]interface{}] built for a navigate event *)
Definition requestBody (writeKey userId : string) (timestamp : Z) (url : string) : value :=
  Map {[ "writeKey" := Str writeKey;
         "userId" := Str userId;
         "timestamp" := Int64 timestamp;
         "properties" := Map {[ "url" := Str url ]};
         "name" := Str ("track " +:+ url) ]}.

(** [for _, event := range segmentData.Evts { ... }]: the state in which
    the handler returns [false], whether from inside the loop or after
    it.  [now] is the reading of [time.Now().Unix()]. *)
Fixpoint range_Evts (L : GoLib) (now : Z) (writeKey : string)
    (evts : list Event) (s : state) : state :=
  match evts with
  | [] => s
  | event :: evts' =>
      if bool_decide (Kind event = navigateEvent) then
        let s := set_request s (with_Path (request s) "/v1/page") in
        let s := set_request s (with_Method (request s) "POST") in
        match json_Unmarshal_strings L (Args event) with
        | None => s
        | Some [] => s
        | Some (url :: _) =>
            let userId := Values_Get (Query (Url (request s))) "UserId" in
            match json_Marshal L (requestBody writeKey userId now url) with
            | None => logger_Printf s "Failed to marshal request body: %v"
            | Some jsonBody =>
                let s := set_request s (with_Body (request s) (Some (NewReader jsonBody))) in
                let contentLength := len jsonBody in
                let s := set_request s (with_ContentLength (request s) contentLength) in
                let s := set_request s (with_Headers (request s)
                           (Header_Set (Headers (request s)) "Content-Length"
                              (fmt.Sprintf_d contentLength))) in
                range_Evts L now writeKey evts' s
            end
        end
      else range_Evts L now writeKey evts' s
  end.

(** [contentBytes] after the branch on Content-Encoding: the bytes to
    parse, or the line logged before [return false] *)
Definition contentBytes (L : GoLib) (r : Request) (originalBodyBytes : bytes)
    : string + bytes :=
  if bool_decide (Header_Get (Headers r) "Content-Encoding" = "gzip") then
    match gzip_decode L originalBodyBytes with
    | gzip_NewReader_error => inl "Failed to create gzip reader: %v"
    | gzip_ReadAll_error => inl "Failed to decompress gzip body: %v"
    | gzip_content contentBytes => inr contentBytes
    end
  else inr originalBodyBytes.

Definition HandleRequest (L : GoLib) (now : Z) (s : state) (info : RequestInfo) : outcome :=
  if Serviced info then Returns false s
  else if negb (bool_decide (Path (Url (request s)) = "/rec/bundle/v2")) then Returns false s
  else
    match Body (request s) with
    | None => Returns false s
    | Some body =>
        let (originalBodyBytes, err) := io_ReadAll body in
        if err then
          let s := set_request s (with_Body (request s) (Some (drained body))) in
          Returns false (logger_Printf s "Failed to read request body: %v")
        else
          let s := set_request s (with_Body (request s) (Some (NewReader originalBodyBytes))) in
          match contentBytes L (request s) originalBodyBytes with
          | inl format => Returns false (logger_Printf s format)
          | inr contentBytes =>
              match json_Unmarshal_SegmentData L contentBytes with
              | None => Returns false s
              | Some segmentData =>
                  Returns false (range_Evts L now (WriteKey segmentData) (Evts segmentData) s)
              end
          end
    end.

End segment_proxy_plugin.

(** ** The handler carried with segment_proxy_plugin_test.go

    The test file of the package comes with a second text of the plugin,
    whose struct has the [client] field the test fills in.  It matches the
    path by [strings.Contains], skips an event with [continue] and sends a
    request of its own for every navigate event. *)

Module segment_proxy_plugin_fanout.

Record segmentProxyPlugin : Type := mkPlugin { client : Client }.

Definition navigateEvent : Z := segment_proxy_plugin.navigateEvent.

Definition contentBytes := segment_proxy_plugin.contentBytes.

(** [strings.Contains(s, substr)] *)
Fixpoint strings_Contains (s substr : string) : bool :=
  String.prefix substr s
  || match s with
     | EmptyString => false
     | String _ s' => strings_Contains s' substr
     end.

(** [for k, v := range request.Header { if k != "Content-Length" { proxyReq.Header[k] = v } }] *)
Definition copy_headers (from to : Header) : Header :=
  filter (λ kv, kv.1 ≠ "Content-Length") from ∪ to.

(** one navigate event whose arguments gave [url] and whose body marshalled *)
Definition proxy_event (L : GoLib) (plug : segmentProxyPlugin) (r : Request)
    (jsonBody : bytes) (s : state) (processedCount : Z) : state * Z :=
  let targetURL := URL_with_Path (Url r) "/v1/page" in
  let targetURL :=
    if bool_decide (Scheme targetURL = "") then
      URL_with_Scheme targetURL (if TLS r then "https" else "http")
    else targetURL in
  if negb (url_accepted L targetURL) then
    (logger_Printf s "Failed to create proxy request: %v", processedCount)
  else
    let proxyReq := http_NewRequest "POST" targetURL jsonBody in
    let proxyReq := with_Headers proxyReq (copy_headers (Headers r) (Headers proxyReq)) in
    let proxyReq := with_Headers proxyReq
                      (Header_Set (Headers proxyReq) "Content-Type" "application/json") in
    let proxyReq := with_ContentLength proxyReq (len jsonBody) in
    let s := logger_Printf s "Proxying event to %s: %s" in
    let s := send s proxyReq in
    match Do (client plug) proxyReq with
    | None => (logger_Printf s "Failed to send proxy request: %v", processedCount)
    | Some _ => (s, processedCount + 1)
    end.

Fixpoint range_Evts (L : GoLib) (plug : segmentProxyPlugin) (now : Z)
    (writeKey userId : string) (evts : list Event) (s : state) (processedCount : Z)
    : state * Z :=
  match evts with
  | [] => (s, processedCount)
  | event :: evts' =>
      let continue := range_Evts L plug now writeKey userId evts' in
      if bool_decide (Kind event = navigateEvent) then
        match json_Unmarshal_strings L (Args event) with
        | None => continue s processedCount
        | Some [] => continue s processedCount
        | Some (url :: _) =>
            match json_Marshal L (segment_proxy_plugin.requestBody writeKey userId now url) with
            | None =>
                continue (logger_Printf s "Failed to marshal request body: %v") processedCount
            | Some jsonBody =>
                let (s, processedCount) :=
                  proxy_event L plug (request s) jsonBody s processedCount in
                continue s processedCount
            end
        end
      else continue s processedCount
  end.

Definition HandleRequest (L : GoLib) (plug : segmentProxyPlugin) (now : Z)
    (s : state) (info : RequestInfo) : outcome :=
  if Serviced info then Returns false s
  else if negb (strings_Contains (Path (Url (request s))) "/rec/bundle/v2") then Returns false s
  else
    match Body (request s) with
    | None => Returns false s
    | Some body =>
        let (originalBodyBytes, err) := io_ReadAll body in
        if err then
          let s := set_request s (with_Body (request s) (Some (drained body))) in
          Returns false (logger_Printf s "Failed to read request body: %v")
        else
          let s := set_request s (with_Body (request s) (Some (NewReader originalBodyBytes))) in
          match contentBytes L (request s) originalBodyBytes with
          | inl format => Returns false (logger_Printf s format)
          | inr contentBytes =>
              match json_Unmarshal_SegmentData L contentBytes with
              | None => Returns false s
              | Some segmentData =>
                  let userId := Values_Get (Query (Url (request s))) "UserId" in
                  let (s, processedCount) :=
                    range_Evts L plug now (WriteKey segmentData) userId
                      (Evts segmentData) s 0 in
                  if 0 <? processedCount then
                    Returns false
                      (logger_Printf s "Processed and proxied %d events from %s")
                  else Returns false s
              end
          end
    end.

End segment_proxy_plugin_fanout.

(** ** content-enricher-plugin.go *)

(** The config view of the relay (package [config]) is not part of these
    sources.  The spec describes it: "A section answers: is key K present,
    and give me K parsed as T", and a value of the wrong shape is a factory
    error.  [ParseOptional] runs the action on a value that is present and
    parses, does nothing for an absent key and passes on the error of a
    malformed one. *)
Module config.

(** Modelled from the spec: what looking up a key of a section as a [T]
    yields: the key is absent, its value does not have the shape of a [T],
    or it parses. *)
Inductive lookup (T : Type) : Type :=
| Absent
| Malformed (err : string)
| Present (v : T).
Arguments Absent {T}.
Arguments Malformed {T} err.
Arguments Present {T} v.

(** Modelled from the spec: the section enrich-content, given by its two
    options, [body] (a mapping from string to any value) and [headers] (a
    mapping from string to string). *)
Record Section : Type := mkSection {
  body : lookup (gmap string value);
  headers : lookup (gmap string string)
}.

(** Modelled from the spec: [config.ParseOptional(section, key, action)].
    [acc] is the state the action works on (here the plugin being built). *)
Definition ParseOptional {T A : Type} (option : lookup T)
    (action : T → A → A) (acc : A) : A + string :=
  match option with
  | Absent => inl acc
  | Malformed err => inr err
  | Present v => inl (action v acc)
  end.

End config.

Module content_enricher_plugin.

Definition pluginName : string := "enrich-content".

Definition PluginVersionHeaderName : string := "X-Relay-Content-Enricher-Version".

Record contentEnricherPlugin : Type := mkPlugin {
  bodyEnrichments : gmap string value;
  headerEnrichments : gmap string string
}.

(** what [New] returns: an error, [nil, nil], or the plugin (the lines
    [New] logs are left out) *)
Inductive factory_result : Type :=
| factory_error (msg : string)
| no_plugin
| loaded (plug : contentEnricherPlugin).

(** [for k, v := range value { m[k] = v }].  Go visits the entries of a
    map in an order it does not specify; [map_to_list] fixes one. *)
Definition copy_into {V : Type} (value m : gmap string V) : gmap string V :=
  foldl (λ m kv, <[kv.1 := kv.2]> m) m (map_to_list value).

Definition New (configSection : config.Section) : factory_result :=
  let plugin := mkPlugin ∅ ∅ in
  match config.ParseOptional (config.body configSection)
          (λ value plugin,
             mkPlugin (copy_into value (bodyEnrichments plugin)) (headerEnrichments plugin))
          plugin with
  | inr _ => factory_error "error parsing body enrichments: %v"
  | inl plugin =>
      match config.ParseOptional (config.headers configSection)
              (λ value plugin,
                 mkPlugin (bodyEnrichments plugin) (copy_into value (headerEnrichments plugin)))
              plugin with
      | inr _ => factory_error "error parsing header enrichments: %v"
      | inl plugin =>
          if bool_decide (size (bodyEnrichments plugin) = 0%nat)
             && bool_decide (size (headerEnrichments plugin) = 0%nat)
          then no_plugin
          else loaded plugin
      end
  end.

Definition enrichHeaderContent (plug : contentEnricherPlugin) (s : state) : outcome :=
  if bool_decide (size (headerEnrichments plug) = 0%nat) then Returns false s
  else
    let h := foldl (λ h kv, Header_Set h kv.1 kv.2) (Headers (request s))
               (map_to_list (headerEnrichments plug)) in
    let s := set_request s (with_Headers (request s) h) in
    Returns false (logger_Printf s "Enriched headers: %v").

(** [for key, value := range plug.bodyEnrichments { ... }]: the map and
    the log after the loop, or [None] when an assignment hits a nil map *)
Fixpoint range_bodyEnrichments (entries : list (string * value))
    (jsonBody : gomap) (s : state) : option (gomap * state) :=
  match entries with
  | [] => Some (jsonBody, s)
  | (key, value) :: entries' =>
      match jsonBody with
      | NilMap => None
      | MakeMap m =>
          match m !! key with
          | None => range_bodyEnrichments entries' (MakeMap (<[key := value]> m)) s
          | Some _ =>
              range_bodyEnrichments entries' jsonBody
                (logger_Printf s
                   "Skipping enrichment for body key '%s' because it already exists.")
          end
      end
  end.

Definition enrichBodyContent (L : GoLib) (plug : contentEnricherPlugin) (s : state) : outcome :=
  if bool_decide (size (bodyEnrichments plug) = 0%nat) then Returns false s
  else
    let contentType := Header_Get (Headers (request s)) "Content-Type" in
    if negb (bool_decide (contentType = "application/json")) then
      Returns false
        (logger_Printf s "Skipping body enrichment for non-JSON content type: %s")
    else
      match Body (request s) with
      | None | Some NoBody =>
          Returns false (logger_Printf s "Skipping body enrichment for empty body")
      | Some body =>
          let (bodyBytes, err) := io_ReadAll body in
          let s := set_request s (with_Body (request s) (Some (NewReader bodyBytes))) in
          if err then
            let s := logger_Printf s "Error reading request body: %s" in
            Returns true
              (write_Error s "Error reading request body: %s" StatusInternalServerError)
          else if bool_decide (len bodyBytes = 0) then
            Returns false
              (logger_Printf s "Skipping body enrichment for zero-length body after read")
          else
            match json_Unmarshal_map L bodyBytes with
            | None =>
                let s := logger_Printf s "Error parsing JSON body, cannot enrich: %s. Body: %s" in
                Returns false
                  (set_request s (with_Body (request s) (Some (NewReader bodyBytes))))
            | Some jsonBody =>
                match range_bodyEnrichments (map_to_list (bodyEnrichments plug)) jsonBody s with
                | None => Panics s
                | Some (jsonBody, s) =>
                    match json_Marshal L (gomap_value jsonBody) with
                    | None =>
                        let s := logger_Printf s "Error marshaling enriched JSON: %s" in
                        Returns true
                          (write_Error s "Error marshaling enriched JSON: %s"
                             StatusInternalServerError)
                    | Some enrichedBodyBytes =>
                        let s := set_request s
                                   (with_Body (request s) (Some (NewReader enrichedBodyBytes))) in
                        let s := set_request s
                                   (with_ContentLength (request s) (len enrichedBodyBytes)) in
                        let s := set_request s (with_Headers (request s)
                                   (Header_Set (Headers (request s)) "Content-Length"
                                      (fmt.Sprintf_d (ContentLength (request s))))) in
                        Returns false (logger_Printf s "Enriched body. New length: %d")
                    end
                end
            end
      end.

(** [if serviced := f(...); serviced { return true }] *)
Definition unless_serviced (o : outcome) (rest : state → outcome) : outcome :=
  match o with
  | Returns false s => rest s
  | _ => o
  end.

(** [RelayRelease] is [version.RelayRelease], the release string of the
    relay (package [version] is not part of these sources). *)
Definition HandleRequest (L : GoLib) (RelayRelease : string)
    (plug : contentEnricherPlugin) (s : state) (info : RequestInfo) : outcome :=
  if Serviced info then Returns false s
  else
    unless_serviced (enrichHeaderContent plug s) (λ s,
    unless_serviced (enrichBodyContent L plug s) (λ s,
      if bool_decide (0 < size (headerEnrichments plug))%nat
         || bool_decide (0 < size (bodyEnrichments plug))%nat
      then
        Returns false
          (set_request s (with_Headers (request s)
             (Header_Add (Headers (request s)) PluginVersionHeaderName RelayRelease)))
      else Returns false s)).

End content_enricher_plugin.

(** ** An executable instance of the library

    A JSON reader and writer, the decoding rules of encoding/json at the
    types the plugins use, and a gzip reader for members made of stored
    blocks.  Number literals are carried as text (no rounding to
    [float64]) and strings are not checked to be UTF-8. *)

Module Std.

Inductive json : Type :=
| JNull
| JBool (b : bool)
| JNumber (lit : string)
| JString (s : string)
| JArray (l : list json)
| JObject (members : list (string * json)).

Abbreviation input := (list N).

Definition codes (b : bytes) : input := map Byte.to_N b.
Definition chr (n : N) : ascii := ascii_of_N n.

(** *** Reading *)

Definition is_space (c : N) : bool :=
  bool_decide (c ∈ [32; 9; 10; 13]%N).

Fixpoint skip_space (s : input) : input :=
  match s with
  | c :: s' => if is_space c then skip_space s' else s
  | [] => []
  end.

Definition hex_digit (c : N) : option N :=
  if (48 <=? c)%N && (c <=? 57)%N then Some (c - 48)%N
  else if (97 <=? c)%N && (c <=? 102)%N then Some (c - 87)%N
  else if (65 <=? c)%N && (c <=? 70)%N then Some (c - 55)%N
  else None.

Definition hex4 (s : input) : option (N * input) :=
  match s with
  | a :: b :: c :: d :: s' =>
      a ← hex_digit a; b ← hex_digit b; c ← hex_digit c; d ← hex_digit d;
      Some (((a * 16 + b) * 16 + c) * 16 + d, s')%N
  | _ => None
  end.

(** the UTF-8 encoding of a code point *)
Definition utf8 (cp : N) : string :=
  (if cp <? 128 then String (chr cp) ""
   else if cp <? 2048 then
     String (chr (192 + cp / 64)) (String (chr (128 + cp mod 64)) "")
   else if cp <? 65536 then
     String (chr (224 + cp / 4096))
       (String (chr (128 + (cp / 64) mod 64)) (String (chr (128 + cp mod 64)) ""))
   else
     String (chr (240 + cp / 262144))
       (String (chr (128 + (cp / 4096) mod 64))
          (String (chr (128 + (cp / 64) mod 64)) (String (chr (128 + cp mod 64)) ""))))%N.

Definition replacement : N := 65533.

Definition is_high_surrogate (cp : N) : bool := (55296 <=? cp)%N && (cp <? 56320)%N.
Definition is_low_surrogate (cp : N) : bool := (56320 <=? cp)%N && (cp <? 57344)%N.

(** the text after a backslash-u: one code point, a surrogate pair, or a
    lone surrogate (read as U+FFFD) *)
Definition unicode_escape (s : input) : option (string * input) :=
  '(cp, s1) ← hex4 s;
  if is_high_surrogate cp then
    match s1 with
    | 92 :: 117 :: s2 =>
        match hex4 s2 with
        | Some (lo, s3) =>
            if is_low_surrogate lo then
              Some (utf8 (65536 + (cp - 55296) * 1024 + (lo - 56320)), s3)
            else Some (utf8 replacement, s1)
        | None => Some (utf8 replacement, s1)
        end
    | _ => Some (utf8 replacement, s1)
    end%N
  else if is_low_surrogate cp then Some (utf8 replacement, s1)
  else Some (utf8 cp, s1).

(** the rest of a string literal, after its opening quote *)
Fixpoint read_string (fuel : nat) (s : input) : option (string * input) :=
  match fuel with
  | O => None
  | S fuel =>
      match s with
      | [] => None
      | 34 :: s' => Some ("", s')
      | 92 :: e :: s' =>
          '(head, s'') ←
            match e with
            | 34 | 92 | 47 => Some (String (chr e) "", s')
            | 98 => Some (String (chr 8) "", s')
            | 102 => Some (String (chr 12) "", s')
            | 110 => Some (String (chr 10) "", s')
            | 114 => Some (String (chr 13) "", s')
            | 116 => Some (String (chr 9) "", s')
            | 117 => unicode_escape s'
            | _ => None
            end%N;
          '(tail, rest) ← read_string fuel s'';
          Some (head +:+ tail, rest)
      | c :: s' =>
          if (c <? 32)%N then None
          else
            '(tail, rest) ← read_string fuel s';
            Some (String (chr c) tail, rest)
      end%N
  end.

Definition is_digit (c : N) : bool := (48 <=? c)%N && (c <=? 57)%N.

Fixpoint read_digits (s : input) : string * input :=
  match s with
  | c :: s' =>
      if is_digit c then let (d, rest) := read_digits s' in (String (chr c) d, rest)
      else ("", s)
  | [] => ("", [])
  end.

(** a number literal: sign, integer part without a leading zero,
    fraction, exponent *)
Definition read_number (s : input) : option (string * input) :=
  let (sign, s) := match s with 45%N :: s' => ("-", s') | _ => ("", s) end in
  let (int, s1) := read_digits s in
  if bool_decide (int = "") then None
  else if String.prefix "0" int && negb (bool_decide (int = "0")) then None
  else
    '(frac, s2) ←
      match s1 with
      | 46%N :: s' =>
          let (d, rest) := read_digits s' in
          if bool_decide (d = "") then None else Some ("." +:+ d, rest)
      | _ => Some ("", s1)
      end;
    '(exp, s3) ←
      match s2 with
      | e :: s' =>
          if bool_decide (e = 101%N) || bool_decide (e = 69%N) then
            let (esign, s'') :=
              match s' with
              | 43%N :: t => ("+", t)
              | 45%N :: t => ("-", t)
              | _ => ("", s')
              end in
            let (d, rest) := read_digits s'' in
            if bool_decide (d = "") then None
            else Some (String (chr e) (esign +:+ d), rest)
          else Some ("", s2)
      | [] => Some ("", s2)
      end;
    Some (sign +:+ int +:+ frac +:+ exp, s3).

Definition read_literal (word : list N) (j : json) (s : input) : option (json * input) :=
  if bool_decide (take (length word) s = word) then Some (j, drop (length word) s)
  else None.

Fixpoint read_value (fuel : nat) (s : input) : option (json * input) :=
  match fuel with
  | O => None
  | S fuel =>
      match skip_space s with
      | 123 :: s1 =>
          match skip_space s1 with
          | 125 :: s2 => Some (JObject [], s2)
          | _ => read_members fuel s1 []
          end
      | 91 :: s1 =>
          match skip_space s1 with
          | 93 :: s2 => Some (JArray [], s2)
          | _ => read_elements fuel s1 []
          end
      | 34 :: s1 => '(str, rest) ← read_string (S (length s1)) s1; Some (JString str, rest)
      | 116 :: _ => read_literal [116; 114; 117; 101] (JBool true) (skip_space s)
      | 102 :: _ => read_literal [102; 97; 108; 115; 101] (JBool false) (skip_space s)
      | 110 :: _ => read_literal [110; 117; 108; 108] JNull (skip_space s)
      | _ => '(lit, rest) ← read_number (skip_space s); Some (JNumber lit, rest)
      end%N
  end
with read_members (fuel : nat) (s : input) (acc : list (string * json))
    : option (json * input) :=
  match fuel with
  | O => None
  | S fuel =>
      match skip_space s with
      | 34 :: s1 =>
          '(key, s2) ← read_string (S (length s1)) s1;
          match skip_space s2 with
          | 58 :: s3 =>
              '(v, s4) ← read_value fuel s3;
              match skip_space s4 with
              | 44 :: s5 => read_members fuel s5 (acc ++ [(key, v)])
              | 125 :: s5 => Some (JObject (acc ++ [(key, v)]), s5)
              | _ => None
              end
          | _ => None
          end
      | _ => None
      end%N
  end
with read_elements (fuel : nat) (s : input) (acc : list json) : option (json * input) :=
  match fuel with
  | O => None
  | S fuel =>
      '(v, s1) ← read_value fuel s;
      match skip_space s1 with
      | 44 :: s2 => read_elements fuel s2 (acc ++ [v])
      | 93 :: s2 => Some (JArray (acc ++ [v]), s2)
      | _ => None
      end%N
  end.

(** a whole document: one value, with white space around it *)
Definition read (b : bytes) : option json :=
  '(j, rest) ← read_value (S (length b)) (codes b);
  if bool_decide (skip_space rest = []) then Some j else None.

(** *** Writing *)

Definition hex_char (n : N) : ascii :=
  if (n <? 10)%N then chr (48 + n) else chr (87 + n).

(** backslash, u, and four hexadecimal digits *)
Definition escape_u (c : N) : string :=
  String (chr 92) (String (chr 117)
    (String (hex_char (c / 4096)) (String (hex_char ((c / 256) mod 16))
      (String (hex_char ((c / 16) mod 16)) (String (hex_char (c mod 16)) "")))))%N.

(** the bytes of a string inside its quotes, as [json.Marshal] escapes
    them: quote and backslash, the control characters, and the three
    characters that matter in HTML *)
Fixpoint escape (s : string) : string :=
  match s with
  | EmptyString => ""
  | String c s' =>
      let n := N_of_ascii c in
      (match n with
       | 34 | 92 => String (chr 92) (String c "")
       | 8 => String (chr 92) "b"
       | 12 => String (chr 92) "f"
       | 10 => String (chr 92) "n"
       | 13 => String (chr 92) "r"
       | 9 => String (chr 92) "t"
       | 60 | 62 | 38 => escape_u n
       | _ => if (n <? 32)%N then escape_u n else String c ""
       end%N) +:+ escape s'
  end.

Definition quoted (s : string) : string :=
  String (chr 34) (escape s +:+ String (chr 34) "").

Definition comma_separated (l : list string) : string :=
  match l with
  | [] => ""
  | x :: l' => x +:+ String.concat "" (map (λ y, "," +:+ y) l')
  end.

Fixpoint write (j : json) : string :=
  match j with
  | JNull => "null"
  | JBool true => "true"
  | JBool false => "false"
  | JNumber lit => lit
  | JString s => quoted s
  | JArray l => "[" +:+ comma_separated (map write l) +:+ "]"
  | JObject ms =>
      "{" +:+ comma_separated (map (λ kv, quoted kv.1 +:+ ":" +:+ write kv.2) ms) +:+ "}"
  end.

(** *** [json.Marshal] *)

Definition key_le (a b : string * json) : Prop := String.leb a.1 b.1 = true.

#[local] Instance key_le_dec a b : Decision (key_le a b).
Proof. unfold key_le. apply _. Defined.

(** maps are written with their keys sorted *)
Fixpoint to_json (v : value) : json :=
  match v with
  | Nil => JNull
  | Bool b => JBool b
  | Int64 n => JNumber (fmt.Sprintf_d n)
  | Float64 lit => JNumber lit
  | Str s => JString s
  | Slice l => JArray (map to_json l)
  | Map m => JObject (merge_sort key_le (map_to_list (to_json <$> m)))
  end.

Definition Marshal (v : value) : option bytes :=
  Some (bytes_of_string (write (to_json v))).

(** *** [json.Unmarshal] *)

(** into an [interface{}]: of two members with one name the later stays *)
Fixpoint to_value (j : json) : value :=
  match j with
  | JNull => Nil
  | JBool b => Bool b
  | JNumber lit => Float64 lit
  | JString s => Str s
  | JArray l => Slice (map to_value l)
  | JObject ms =>
      Map (list_to_map (reverse (map (λ kv, (kv.1, to_value kv.2)) ms)))
  end.

(** into a [map[string]interface{}]: [null] leaves the map nil, anything
    but an object is a type error *)
Definition to_map (j : json) : option gomap :=
  match j with
  | JNull => Some NilMap
  | JObject _ =>
      match to_value j with
      | Map m => Some (MakeMap m)
      | _ => None
      end
  | _ => None
  end.

Definition Unmarshal_map (b : bytes) : option gomap := read b ≫= to_map.

(** into a [[]string]: [null] leaves the slice nil, and a [null] element
    leaves its string empty *)
Definition to_string (j : json) : option string :=
  match j with
  | JNull => Some ""
  | JString s => Some s
  | _ => None
  end.

Definition to_strings (j : json) : option (list string) :=
  match j with
  | JNull => Some []
  | JArray l => mapM to_string l
  | _ => None
  end.

Definition Unmarshal_strings (b : bytes) : option (list string) := read b ≫= to_strings.

Fixpoint decimal (s : string) (acc : Z) : option Z :=
  match s with
  | EmptyString => Some acc
  | String c s' =>
      let n := N_of_ascii c in
      if is_digit n then decimal s' (10 * acc + Z.of_N (n - 48))%Z else None
  end.

(** [strconv.ParseInt(lit, 10, 64)] on a number literal *)
Definition parse_int (lit : string) : option Z :=
  n ← match lit with
       | String c s' =>
           if bool_decide (N_of_ascii c = 45%N) then Z.opp <$> decimal s' 0
           else decimal lit 0
       | EmptyString => None
       end;
  if bool_decide (- 2 ^ 63 ≤ n < 2 ^ 63)%Z then Some n else None.

(** into an [int] field holding [old] *)
Definition to_int (old : Z) (j : json) : option Z :=
  match j with
  | JNull => Some old
  | JNumber lit => parse_int lit
  | _ => None
  end.

Fixpoint lower (s : string) : string :=
  match s with
  | EmptyString => ""
  | String c s' =>
      String (if textproto.is_upper c then chr (N_of_ascii c + 32) else c) (lower s')
  end.

(** the struct field a member name selects: the field of that exact
    name, else the first one equal to it up to the case of letters *)
Definition field (names : list string) (key : string) : option string :=
  if bool_decide (key ∈ names) then Some key
  else head (filter (λ n, lower n = lower key) names).

Definition set_Event (e : Event) (member : string * json) : option Event :=
  match field ["Kind"; "Args"; "When"] member.1 with
  | Some "Kind" => k ← to_int (Kind e) member.2; Some (mkEvent k (Args e) (When e))
  | Some "Args" => Some (mkEvent (Kind e) (bytes_of_string (write member.2)) (When e))
  | Some "When" => w ← to_int (When e) member.2; Some (mkEvent (Kind e) (Args e) w)
  | _ => Some e
  end.

Definition to_Event (j : json) : option Event :=
  match j with
  | JNull => Some (mkEvent 0 [] 0)
  | JObject ms => foldl (λ e m, e ≫= λ e, set_Event e m) (Some (mkEvent 0 [] 0)) ms
  | _ => None
  end.

Definition to_Evts (j : json) : option (list Event) :=
  match j with
  | JNull => Some []
  | JArray l => mapM to_Event l
  | _ => None
  end.

Definition set_SegmentData (d : SegmentData) (member : string * json)
    : option SegmentData :=
  match field ["Seq"; "When"; "writeKey"; "Evts"] member.1 with
  | Some "Seq" =>
      n ← to_int (Seq d) member.2;
      Some (mkSegmentData n (SegmentData_When d) (WriteKey d) (Evts d))
  | Some "When" =>
      n ← to_int (SegmentData_When d) member.2;
      Some (mkSegmentData (Seq d) n (WriteKey d) (Evts d))
  | Some "writeKey" =>
      match member.2 with
      | JNull => Some d
      | JString k => Some (mkSegmentData (Seq d) (SegmentData_When d) k (Evts d))
      | _ => None
      end
  | Some "Evts" =>
      l ← to_Evts member.2;
      Some (mkSegmentData (Seq d) (SegmentData_When d) (WriteKey d) l)
  | _ => Some d
  end.

Definition to_SegmentData (j : json) : option SegmentData :=
  match j with
  | JNull => Some (mkSegmentData 0 0 "" [])
  | JObject ms =>
      foldl (λ d m, d ≫= λ d, set_SegmentData d m) (Some (mkSegmentData 0 0 "" [])) ms
  | _ => None
  end.

Definition Unmarshal_SegmentData (b : bytes) : option SegmentData :=
  read b ≫= to_SegmentData.

(** [json.Marshal] of a [SegmentData], as the tests build their bodies:
    the fields in the order of the struct, [Seq] and [When] left out when
    zero *)
Definition of_Event (e : Event) : json :=
  JObject ([("Kind", JNumber (fmt.Sprintf_d (Kind e)));
            ("Args", default JNull (read (Args e)))]
           ++ if bool_decide (When e = 0) then []
              else [("When", JNumber (fmt.Sprintf_d (When e)))]).

Definition of_SegmentData (d : SegmentData) : json :=
  JObject ((if bool_decide (Seq d = 0) then []
            else [("Seq", JNumber (fmt.Sprintf_d (Seq d)))])
           ++ (if bool_decide (SegmentData_When d = 0) then []
               else [("When", JNumber (fmt.Sprintf_d (SegmentData_When d)))])
           ++ [("writeKey", JString (WriteKey d));
               ("Evts", JArray (map of_Event (Evts d)))]).

Definition Marshal_SegmentData (d : SegmentData) : bytes :=
  bytes_of_string (write (of_SegmentData d)).

(** *** compress/gzip *)

Definition crc_table_step (c : N) : N :=
  if N.testbit c 0 then N.lxor (N.shiftr c 1) 3988292384%N else N.shiftr c 1.

Definition crc_byte (crc b : N) : N :=
  Nat.iter 8 crc_table_step (N.lxor crc b).

(** CRC-32 of RFC 1952 *)
Definition crc32 (data : list N) : N :=
  N.lxor (foldl crc_byte 4294967295%N data) 4294967295%N.

Definition le16 (a b : N) : N := (a + 256 * b)%N.
Definition le32 (a b c d : N) : N := (a + 256 * (b + 256 * (c + 256 * d)))%N.

Fixpoint skip_zero_terminated (s : input) : option input :=
  match s with
  | [] => None
  | 0%N :: s' => Some s'
  | _ :: s' => skip_zero_terminated s'
  end.

(** the member header: magic number, method 8, flags and the optional
    fields they announce; what follows the header *)
Definition read_header (s : input) : option input :=
  match s with
  | 31 :: 139 :: 8 :: flg :: _ :: _ :: _ :: _ :: _ :: _ :: s1 =>
      s2 ← (if N.testbit flg 2 then
              match s1 with
              | a :: b :: s' =>
                  if (N.of_nat (length s') <? le16 a b)%N then None
                  else Some (drop (N.to_nat (le16 a b)) s')
              | _ => None
              end
            else Some s1);
      s3 ← (if N.testbit flg 3 then skip_zero_terminated s2 else Some s2);
      s4 ← (if N.testbit flg 4 then skip_zero_terminated s3 else Some s3);
      if N.testbit flg 1 then
        match s4 with
        | _ :: _ :: s' => Some s'
        | _ => None
        end
      else Some s4
  | _ => None
  end%N.

(** the deflate stream, as long as its blocks are stored ones: the data,
    and what follows the last block.  A compressed block is outside this
    reader and reported as an error. *)
Fixpoint read_stored (fuel : nat) (s : input) : option (list N * input) :=
  match fuel with
  | O => None
  | S fuel =>
      match s with
      | h :: a :: b :: c :: d :: s' =>
          if negb (bool_decide ((h / 2) mod 4 = 0)%N) then None
          else if negb (bool_decide (le16 a b + le16 c d = 65535)%N) then None
          else if (N.of_nat (length s') <? le16 a b)%N then None
          else
            let data := take (N.to_nat (le16 a b)) s' in
            let rest := drop (N.to_nat (le16 a b)) s' in
            if N.testbit h 0 then Some (data, rest)
            else '(more, rest') ← read_stored fuel rest; Some (data ++ more, rest')
      | _ => None
      end
  end.

Definition to_bytes (s : list N) : bytes :=
  omap Byte.of_N s.

Definition gunzip (b : bytes) : gzip_result :=
  match read_header (codes b) with
  | None => gzip_NewReader_error
  | Some s =>
      match read_stored (S (length s)) s with
      | Some (data, [c0; c1; c2; c3; n0; n1; n2; n3]) =>
          if bool_decide (crc32 data = le32 c0 c1 c2 c3)
             && bool_decide ((N.of_nat (length data) mod 4294967296 = le32 n0 n1 n2 n3)%N)
          then gzip_content (to_bytes data)
          else gzip_ReadAll_error
      | _ => gzip_ReadAll_error
      end
  end.

Definition bytes_le32 (n : N) : list N :=
  [n mod 256; (n / 256) mod 256; (n / 65536) mod 256; (n / 16777216) mod 256]%N.

(** a gzip member holding [data] (shorter than 65536 bytes) in one
    stored block *)
Definition gzip_stored (data : bytes) : bytes :=
  let d := codes data in
  let n := N.of_nat (length d) in
  to_bytes
    ([31; 139; 8; 0; 0; 0; 0; 0; 0; 255]
     ++ [1; n mod 256; n / 256; (65535 - n) mod 256; (65535 - n) / 256]
     ++ d ++ bytes_le32 (crc32 d) ++ bytes_le32 n)%N.

(** *** The instance *)

Definition lib : GoLib :=
  mkGoLib Unmarshal_SegmentData Unmarshal_strings Unmarshal_map Marshal gunzip (λ _, true).

End Std.

(** ** Requests and bodies of the package tests *)

Module Examples.

Definition quote (s : string) : string :=
  String (Std.chr 34) (s +:+ String (Std.chr 34) "").

(** [Event{Kind: kind, Args: json.RawMessage(`["arg"]`)}] *)
Definition event (kind : Z) (arg : string) : Event :=
  mkEvent kind (bytes_of_string ("[" +:+ quote arg +:+ "]")) 0.

(** [json.Marshal(SegmentData{WriteKey: "test-key", Evts: evts})] *)
Definition bundle (evts : list Event) : bytes :=
  Std.Marshal_SegmentData (mkSegmentData 0 0 "test-key" evts).

(** [httptest.NewRequest("GET", "http://example.com"+path+"?"+query, bytes.NewReader(body))]
    with the query [writeKey=test-key&UserId=test-user] *)
Definition NewRequest (path : string) (body : bytes) : Request :=
  mkRequest "GET"
    (mkURL "http" "example.com" path [("writeKey", "test-key"); ("UserId", "test-user")])
    ∅ (Some (NewReader body)) (len body) false.

(** a request as the server hands it to the pipeline: a POST with its
    Content-Length header and the given other headers *)
Definition post (path : string) (headers : list (string * string)) (body : bytes) : Request :=
  mkRequest "POST"
    (mkURL "" "" path [("writeKey", "test-key"); ("UserId", "test-user")])
    (foldl (λ h kv, Header_Set h kv.1 kv.2)
       (Header_Set ∅ "Content-Length" (fmt.Sprintf_d (len body))) headers)
    (Some (NewReader body)) (len body) false.

Definition start (r : Request) : state := mkState r [] [] [].

Definition fresh : RequestInfo := mkRequestInfo false.

Definition now : Z := 1700000000.

(** a client whose every request is answered with 200 *)
Definition server : Client := mkClient (λ _, Some 200).

(** the body of the enricher tests, and the enrichment they configure *)
Definition original_content : bytes :=
  bytes_of_string ("{" +:+ quote "content" +:+ ":" +:+ quote "Original content" +:+ "}").

Definition enricher : content_enricher_plugin.contentEnricherPlugin :=
  content_enricher_plugin.mkPlugin {[ "new-body-key" := Str "enrich payload" ]} ∅.

End Examples.

(** ** Notions used in the statements *)

(** the bytes a reader of the body would still get *)
Definition unread_bytes (r : Request) : bytes :=
  match Body r with
  | Some (Reader b _) => b
  | _ => []
  end.

(** the body is absent, or a stream that reads to its end *)
Definition readable (r : Request) : Prop :=
  ∀ b, Body r ≠ Some (Reader b true).

(** The Content-Length header, [request.ContentLength] and the length of
    the body agree: the body reads to its end, and both fields give the
    number of its bytes. *)
Definition lengths_agree (r : Request) : Prop :=
  readable r
  ∧ ContentLength r = len (unread_bytes r)
  ∧ Header_Get (Headers r) "Content-Length" = fmt.Sprintf_d (len (unread_bytes r)).

(** [r'] is [r] up to the stream behind [Body], which yields the same
    bytes *)
Definition same_but_stream (r r' : Request) : Prop :=
  Method r' = Method r ∧ Url r' = Url r ∧ Headers r' = Headers r
  ∧ ContentLength r' = ContentLength r ∧ TLS r' = TLS r
  ∧ unread_bytes r' = unread_bytes r
  ∧ (readable r → readable r').

(** the handler left the bytes of the body and [ContentLength] alone *)
Definition body_kept (r r' : Request) : Prop :=
  unread_bytes r' = unread_bytes r
  ∧ (readable r → readable r')
  ∧ ContentLength r' = ContentLength r.

(** ... and the Content-Length header as well *)
Definition lengths_kept (r r' : Request) : Prop :=
  body_kept r r'
  ∧ Header_Get (Headers r') "Content-Length" = Header_Get (Headers r) "Content-Length".

(** content-enricher-plugin.go: the headers after the loop of
    [enrichHeaderContent] *)
Definition enriched_headers (plug : content_enricher_plugin.contentEnricherPlugin)
    (h : Header) : Header :=
  foldl (λ h kv, Header_Set h kv.1 kv.2) h
    (map_to_list (content_enricher_plugin.headerEnrichments plug)).

(** no configured header is the Content-Length header *)
Definition leaves_Content_Length (plug : content_enricher_plugin.contentEnricherPlugin)
    : Prop :=
  ∀ key, is_Some (content_enricher_plugin.headerEnrichments plug !! key) →
         textproto.CanonicalMIMEHeaderKey key ≠ "Content-Length".

(** the state in and the [bool] of an outcome *)
Definition final (o : outcome) : state :=
  match o with
  | Returns _ s => s
  | Panics s => s
  end.

(** segment_proxy_plugin.go: what the loop does to the request when it
    meets a navigate event, before it looks at the arguments *)
Definition retargeted (s : state) : state :=
  set_request s (with_Method (with_Path (request s) "/v1/page") "POST").

(** segment_proxy_plugin.go: the request once the body built for a
    navigate event has been installed *)
Definition page_request (r : Request) (jsonBody : bytes) : Request :=
  mkRequest "POST" (URL_with_Path (Url r) "/v1/page")
    (Header_Set (Headers r) "Content-Length" (fmt.Sprintf_d (len jsonBody)))
    (Some (NewReader jsonBody)) (len jsonBody) (TLS r).

(** the request a handler of the fan-out variant sends for a navigate event *)
Definition proxy_request (r : Request) (jsonBody : bytes) : Request :=
  mkRequest "POST"
    (let u := URL_with_Path (Url r) "/v1/page" in
     if bool_decide (Scheme u = "") then
       URL_with_Scheme u (if TLS r then "https" else "http")
     else u)
    (Header_Set (segment_proxy_plugin_fanout.copy_headers (Headers r) ∅)
       "Content-Type" "application/json")
    (Some (NewReader jsonBody)) (len jsonBody) false.

(** content-enricher-plugin.go: the request once the enriched body has
    been installed *)
Definition enriched_request (r : Request) (enrichedBodyBytes : bytes) : Request :=
  mkRequest (Method r) (Url r)
    (Header_Set (Headers r) "Content-Length" (fmt.Sprintf_d (len enrichedBodyBytes)))
    (Some (NewReader enrichedBodyBytes)) (len enrichedBodyBytes) (TLS r).

(** the state [s] with further lines logged *)
Definition logs_more (s : state) (lines : list string) : state :=
  mkState (request s) (response s) (logged s ++ lines) (sent s).

(** content-enricher-plugin.go: [enrichBodyContent] ended in [o] by
    replacing the body.  The request had Content-Type application/json and
    a body that read to its end, was not empty and parsed as the object
    [m]; the new body is that object with the configured fields it lacked,
    serialized, and the two length fields are those of the new body. *)
Definition body_enriched (L : GoLib) (plug : content_enricher_plugin.contentEnricherPlugin)
    (s : state) (o : outcome) (m : gmap string value) : Prop :=
  ∃ bodyBytes enriched lines,
    Header_Get (Headers (request s)) "Content-Type" = "application/json"
    ∧ Body (request s) = Some (Reader bodyBytes false)
    ∧ bodyBytes ≠ []
    ∧ json_Unmarshal_map L bodyBytes = Some (MakeMap m)
    ∧ json_Marshal L (Map (m ∪ content_enricher_plugin.bodyEnrichments plug))
      = Some enriched
    ∧ o = Returns false
            (logs_more (set_request s (enriched_request (request s) enriched)) lines).

(** content-enricher-plugin.go: the state in which [HandleRequest]
    returns [false], with the version header added when the plugin has an
    enrichment *)
Definition stamped (RelayRelease : string)
    (plug : content_enricher_plugin.contentEnricherPlugin) (s : state) : state :=
  if bool_decide (0 < size (content_enricher_plugin.headerEnrichments plug))%nat
     || bool_decide (0 < size (content_enricher_plugin.bodyEnrichments plug))%nat
  then set_request s (with_Headers (request s)
         (Header_Add (Headers (request s))
            content_enricher_plugin.PluginVersionHeaderName RelayRelease))
  else s.

(** the entries an option of the config section contributes *)
Definition configured {T : Type} (option : config.lookup (gmap string T)) : gmap string T :=
  match option with
  | config.Present v => v
  | _ => ∅
  end.

(** ** Further notions *)

(** the parts of a request that the segment-proxy handler has no
    statement for: scheme, host and query of the URL, the TLS state, and
    every header but Content-Length *)
Definition proxy_frame (r r' : Request) : Prop :=
  Scheme (Url r') = Scheme (Url r) ∧ Host (Url r') = Host (Url r)
  ∧ Query (Url r') = Query (Url r) ∧ TLS r' = TLS r
  ∧ ∀ key, key ≠ "Content-Length" → Headers r' !! key = Headers r !! key.

(** segment_proxy_plugin.go: the body built for a navigate event, when
    its arguments give a URL and the body serializes *)
Definition page_body (L : GoLib) (now : Z) (writeKey userId : string) (event : Event)
    : option bytes :=
  match json_Unmarshal_strings L (Args event) with
  | Some (url :: _) => json_Marshal L (segment_proxy_plugin.requestBody writeKey userId now url)
  | _ => None
  end.

(** the handler gets as far as the loop over the events of the bundle [d] *)
Definition reaches_the_loop (L : GoLib) (s : state) (info : RequestInfo)
    (d : SegmentData) : Prop :=
  Serviced info = false
  ∧ Path (Url (request s)) = "/rec/bundle/v2"
  ∧ ∃ b content,
      Body (request s) = Some (Reader b false)
      ∧ segment_proxy_plugin.contentBytes L (request s) b = inr content
      ∧ json_Unmarshal_SegmentData L content = Some d.

(** the path has [substr] somewhere inside *)
Definition contains (s substr : string) : Prop :=
  ∃ pre post, s = pre +:+ substr +:+ post.

(** the variant that fans out: the requests it sends for the events of a
    bundle, one for each navigate event whose arguments give a URL and
    whose body serializes, in the order of the events *)
Definition deliveries (L : GoLib) (now : Z) (r : Request) (writeKey : string)
    (evts : list Event) : list Request :=
  omap (λ event,
          if bool_decide (Kind event = segment_proxy_plugin_fanout.navigateEvent) then
            proxy_request r
              <$> page_body L now writeKey (Values_Get (Query (Url r)) "UserId") event
          else None) evts.

(** the variant that fans out: the URL of the requests it sends while
    handling the request [r] *)
Definition targetURL (r : Request) : URL := Url (proxy_request r []).

(** the variant that fans out gets as far as the loop over the events of
    the bundle [d] *)
Definition fanout_reaches_the_loop (L : GoLib) (s : state) (info : RequestInfo)
    (d : SegmentData) : Prop :=
  Serviced info = false
  ∧ contains (Path (Url (request s))) "/rec/bundle/v2"
  ∧ ∃ b content,
      Body (request s) = Some (Reader b false)
      ∧ segment_proxy_plugin_fanout.contentBytes L (request s) b = inr content
      ∧ json_Unmarshal_SegmentData L content = Some d.

(** the variant that fans out: what a request sent for a navigate event
    takes from the request [r] in flight, and what it sets itself *)
Definition page_call_of (r p : Request) : Prop :=
  Method p = "POST"
  ∧ Path (Url p) = "/v1/page"
  ∧ Host (Url p) = Host (Url r)
  ∧ Query (Url p) = Query (Url r)
  ∧ Scheme (Url p)
    = (if bool_decide (Scheme (Url r) = "") then if TLS r then "https" else "http"
       else Scheme (Url r))
  ∧ Headers p !! "Content-Type" = Some ["application/json"]
  ∧ Headers p !! "Content-Length" = None
  ∧ (∀ key, key ≠ "Content-Type" → key ≠ "Content-Length" →
       Headers p !! key = Headers r !! key)
  ∧ readable p
  ∧ ContentLength p = len (unread_bytes p).

(** the variant that fans out: the state [s'] in which it returns, having
    sent the requests [extra].  The response writer is untouched, the
    request is the one that came but for the stream behind [Body], which
    yields the same bytes if the body could be read, and each request sent
    is a page call. *)
Definition handed_on (s s' : state) (extra : list Request) : Prop :=
  response s' = response s
  ∧ with_Body (request s') (Body (request s)) = request s
  ∧ (readable (request s) →
     unread_bytes (request s') = unread_bytes (request s) ∧ readable (request s'))
  ∧ sent s' = sent s ++ extra
  ∧ Forall (page_call_of (request s)) extra.


(** the request as [enrichHeaderContent] leaves it *)
Definition with_enriched_headers (plug : content_enricher_plugin.contentEnricherPlugin)
    (r : Request) : Request :=
  with_Headers r (enriched_headers plug (Headers r)).

(** no other configured header has the canonical name of [key] *)
Definition configured_once (plug : content_enricher_plugin.contentEnricherPlugin)
    (key : string) : Prop :=
  ∀ key', is_Some (content_enricher_plugin.headerEnrichments plug !! key') →
          textproto.CanonicalMIMEHeaderKey key' = textproto.CanonicalMIMEHeaderKey key →
          key' = key.

(** no configured header has the canonical name [name] *)
Definition not_configured (plug : content_enricher_plugin.contentEnricherPlugin)
    (name : string) : Prop :=
  ∀ key, is_Some (content_enricher_plugin.headerEnrichments plug !! key) →
         textproto.CanonicalMIMEHeaderKey key ≠ name.

(** * Properties *)

(** ** Headers, requests and states *)

Lemma Header_Get_Set (h : Header) (key value : string) :
  Header_Get (Header_Set h key value) key = value.
Proof. unfold Header_Get, Header_Set. by rewrite lookup_insert_eq. Qed.

Lemma Header_Get_Set_ne (h : Header) (key key' value : string) :
  textproto.CanonicalMIMEHeaderKey key ≠ textproto.CanonicalMIMEHeaderKey key' →
  Header_Get (Header_Set h key value) key' = Header_Get h key'.
Proof. intros Hne. unfold Header_Get, Header_Set. by rewrite lookup_insert_ne. Qed.

Lemma Header_Get_Add_ne (h : Header) (key key' value : string) :
  textproto.CanonicalMIMEHeaderKey key ≠ textproto.CanonicalMIMEHeaderKey key' →
  Header_Get (Header_Add h key value) key' = Header_Get h key'.
Proof. intros Hne. unfold Header_Get, Header_Add. by rewrite lookup_insert_ne. Qed.

(** putting the bytes just read behind a fresh reader gives the request
    as it was before the read *)
Lemma rewound (r : Request) (b : bytes) :
  Body r = Some (Reader b false) → with_Body r (Some (NewReader b)) = r.
Proof. destruct r; simpl; intros ->. done. Qed.

Lemma set_request_same (s : state) : set_request s (request s) = s.
Proof. by destruct s. Qed.

Lemma with_Headers_same (r : Request) : with_Headers r (Headers r) = r.
Proof. by destruct r. Qed.

Lemma logs_more_nil (s : state) : logs_more s [] = s.
Proof. destruct s. unfold logs_more. simpl. by rewrite app_nil_r. Qed.

Lemma logs_more_app (s : state) (l1 l2 : list string) :
  logs_more (logs_more s l1) l2 = logs_more s (l1 ++ l2).
Proof. unfold logs_more. simpl. by rewrite app_assoc. Qed.

Lemma logger_Printf_logs_more (s : state) (format : string) :
  logger_Printf s format = logs_more s [format].
Proof. done. Qed.

Lemma len_nil_iff (b : bytes) : len b = 0 ↔ b = [].
Proof. unfold len. destruct b; simpl; [done|]. split; [lia|done]. Qed.

(** ** Lengths and the body *)

Lemma same_but_stream_refl (r : Request) : same_but_stream r r.
Proof. by repeat split. Qed.

Lemma body_kept_refl (r : Request) : body_kept r r.
Proof. by repeat split. Qed.

Lemma lengths_kept_refl (r : Request) : lengths_kept r r.
Proof. by repeat split. Qed.

Lemma body_kept_trans (r1 r2 r3 : Request) :
  body_kept r1 r2 → body_kept r2 r3 → body_kept r1 r3.
Proof.
  intros (Hb & Hr & Hc) (Hb' & Hr' & Hc'). repeat split; [congruence|auto|congruence].
Qed.

Lemma lengths_kept_trans (r1 r2 r3 : Request) :
  lengths_kept r1 r2 → lengths_kept r2 r3 → lengths_kept r1 r3.
Proof.
  intros [Hk Hh] [Hk' Hh']. split; [by eapply body_kept_trans|congruence].
Qed.

Lemma lengths_agree_kept (r r' : Request) :
  lengths_kept r r' → lengths_agree r → lengths_agree r'.
Proof.
  intros [(Hb & Hr & Hc) Hh] (Hread & Hlen & Hhdr).
  split; [auto|]. by rewrite Hb, Hc, Hh.
Qed.

Lemma same_but_stream_kept (r r' : Request) : same_but_stream r r' → lengths_kept r r'.
Proof. intros (_ & _ & Hh & Hc & _ & Hb & Hr). repeat split; auto. by rewrite Hh. Qed.

(** reading the body to its end and putting the bytes behind a fresh
    reader *)
Lemma reread_same (r : Request) (body : ReadCloser) :
  Body r = Some body →
  same_but_stream r (with_Body r (Some (NewReader (io_ReadAll body).1))).
Proof.
  intros Hb. repeat split; try done.
  unfold unread_bytes. simpl. rewrite Hb. by destruct body.
Qed.

Lemma lengths_agree_page_request (r : Request) (jsonBody : bytes) :
  lengths_agree (page_request r jsonBody).
Proof.
  split; [by intros b|]. split; [done|].
  unfold page_request, unread_bytes. simpl. apply Header_Get_Set.
Qed.

Lemma lengths_agree_enriched_request (r : Request) (enriched : bytes) :
  lengths_agree (enriched_request r enriched).
Proof.
  split; [by intros b|]. split; [done|].
  unfold enriched_request, unread_bytes. simpl. apply Header_Get_Set.
Qed.

(** ** The segment-proxy handler of segment_proxy_plugin.go *)

Section segment_proxy.

Import segment_proxy_plugin.

Context (L : GoLib) (now : Z).

Lemma range_Evts_skips (writeKey : string) (event : Event) (evts : list Event) (s : state) :
  Kind event ≠ navigateEvent →
  range_Evts L now writeKey (event :: evts) s = range_Evts L now writeKey evts s.
Proof. intros Hk. simpl. by rewrite bool_decide_eq_false_2. Qed.

Lemma range_Evts_no_navigate (writeKey : string) (evts : list Event) (s : state) :
  Forall (λ event, Kind event ≠ navigateEvent) evts →
  range_Evts L now writeKey evts s = s.
Proof.
  induction 1 as [|event evts Hk _ IH]; [done|].
  by rewrite range_Evts_skips.
Qed.

(** A navigate event whose arguments do not give a URL ends the loop, and
    the handler, on the spot: whatever events follow are not looked at,
    and the request keeps the new path and method. *)
Lemma range_Evts_returns_early (writeKey : string) (event : Event)
    (evts : list Event) (s : state) :
  Kind event = navigateEvent →
  json_Unmarshal_strings L (Args event) = None
  ∨ json_Unmarshal_strings L (Args event) = Some [] →
  range_Evts L now writeKey (event :: evts) s = retargeted s.
Proof.
  intros Hk Hargs. simpl. rewrite bool_decide_eq_true_2 by done.
  by destruct Hargs as [-> | ->].
Qed.

Lemma range_Evts_navigate (writeKey : string) (event : Event) (evts : list Event)
    (s : state) (url : string) (args : list string) (jsonBody : bytes) :
  Kind event = navigateEvent →
  json_Unmarshal_strings L (Args event) = Some (url :: args) →
  json_Marshal L
    (requestBody writeKey (Values_Get (Query (Url (request s))) "UserId") now url)
    = Some jsonBody →
  range_Evts L now writeKey (event :: evts) s
  = range_Evts L now writeKey evts (set_request s (page_request (request s) jsonBody)).
Proof.
  intros Hk Hargs Hbody. simpl. rewrite bool_decide_eq_true_2 by done.
  rewrite Hargs. simpl. by rewrite Hbody.
Qed.

Lemma range_Evts_marshal_fails (writeKey : string) (event : Event) (evts : list Event)
    (s : state) (url : string) (args : list string) :
  Kind event = segment_proxy_plugin.navigateEvent →
  json_Unmarshal_strings L (Args event) = Some (url :: args) →
  json_Marshal L
    (segment_proxy_plugin.requestBody writeKey
       (Values_Get (Query (Url (request s))) "UserId") now url) = None →
  segment_proxy_plugin.range_Evts L now writeKey (event :: evts) s
  = logger_Printf (retargeted s) "Failed to marshal request body: %v".
Proof.
  intros Hk Hargs Hbody. simpl. rewrite bool_decide_eq_true_2 by done.
  rewrite Hargs. simpl. by rewrite Hbody.
Qed.

(** the loop writes nothing to the response writer and sends nothing *)
Lemma range_Evts_quiet (writeKey : string) (evts : list Event) (s : state) :
  response (range_Evts L now writeKey evts s) = response s
  ∧ sent (range_Evts L now writeKey evts s) = sent s.
Proof.
  revert s. induction evts as [|event evts IH]; intros s; [done|].
  simpl. case_bool_decide; [|apply IH].
  destruct (json_Unmarshal_strings L (Args event)) as [[|url args]|]; try done.
  destruct (json_Marshal L _); [|done].
  match goal with
  | |- context [range_Evts _ _ _ evts ?s'] => by destruct (IH s') as [-> ->]
  end.
Qed.

(** The loop either leaves body and lengths as they were, or ends with
    the lengths of the body it installed. *)
Lemma range_Evts_lengths (writeKey : string) (evts : list Event) (s : state) :
  let s' := segment_proxy_plugin.range_Evts L now writeKey evts s in
  lengths_kept (request s) (request s') ∨ lengths_agree (request s').
Proof.
  revert s. induction evts as [|event evts IH]; intros s; [left; apply lengths_kept_refl|].
  destruct (decide (Kind event = segment_proxy_plugin.navigateEvent)) as [Hk|Hk];
    [|rewrite range_Evts_skips by done; apply IH].
  destruct (json_Unmarshal_strings L (Args event)) as [[|url args]|] eqn:Hargs;
    [rewrite range_Evts_returns_early by auto; by left| |
     rewrite range_Evts_returns_early by auto; by left].
  destruct (json_Marshal L
    (segment_proxy_plugin.requestBody writeKey
       (Values_Get (Query (Url (request s))) "UserId") now url)) as [jsonBody|] eqn:Hbody.
  - rewrite (range_Evts_navigate writeKey event evts s url args jsonBody)
      by done.
    destruct (IH (set_request s (page_request (request s) jsonBody))) as [Hkept|Hagree];
      [|by right].
    right. eapply lengths_agree_kept; [exact Hkept|]. apply lengths_agree_page_request.
  - rewrite (range_Evts_marshal_fails writeKey event evts s url args) by done. by left.
Qed.

Lemma HandleRequest_other_path (s : state) (info : RequestInfo) :
  Path (Url (request s)) ≠ "/rec/bundle/v2" →
  HandleRequest L now s info = Returns false s.
Proof.
  intros Hp. unfold HandleRequest. destruct (Serviced info); [done|].
  by rewrite bool_decide_eq_false_2.
Qed.

(** the handler on a request it processes, whose body reads to its end *)
Lemma HandleRequest_processes (s : state) (info : RequestInfo) (b : bytes) :
  Serviced info = false →
  Path (Url (request s)) = "/rec/bundle/v2" →
  Body (request s) = Some (Reader b false) →
  HandleRequest L now s info =
    match contentBytes L (request s) b with
    | inl format => Returns false (logger_Printf s format)
    | inr content =>
        match json_Unmarshal_SegmentData L content with
        | None => Returns false s
        | Some segmentData =>
            Returns false (range_Evts L now (WriteKey segmentData) (Evts segmentData) s)
        end
    end.
Proof.
  intros Hs Hp Hb. unfold HandleRequest. rewrite Hs, Hb.
  rewrite bool_decide_eq_true_2 by done. simpl.
  rewrite (rewound _ _ Hb). by destruct s.
Qed.

(** The handler always returns [false], writes nothing to the response
    writer and sends no request of its own. *)
Lemma HandleRequest_returns_false (s : state) (info : RequestInfo) :
  ∃ s', HandleRequest L now s info = Returns false s'
        ∧ response s' = response s ∧ sent s' = sent s.
Proof.
  unfold HandleRequest. destruct (Serviced info); [by eexists|].
  case_bool_decide; simpl; [|by eexists].
  destruct (Body (request s)) as [body|]; [|by eexists].
  destruct (io_ReadAll body) as [b [|]]; [by eexists|].
  destruct (contentBytes L _ b) as [format|content]; [by eexists|].
  destruct (json_Unmarshal_SegmentData L content) as [d|]; [|by eexists].
  eexists. split; [done|].
  match goal with
  | |- context [range_Evts L now ?k ?evts ?s1] =>
      by destruct (range_Evts_quiet k evts s1) as [-> ->]
  end.
Qed.

Lemma segment_proxy_lengths (s : state) (info : RequestInfo) :
  readable (request s) →
  let r' := request (final (segment_proxy_plugin.HandleRequest L now s info)) in
  lengths_kept (request s) r' ∨ lengths_agree r'.
Proof.
  intros Hread. unfold segment_proxy_plugin.HandleRequest.
  pose proof (lengths_kept_refl (request s)) as Hrefl.
  destruct (Serviced info); [by left|].
  case_bool_decide; simpl; [|by left].
  destruct (Body (request s)) as [body|] eqn:Hb; simpl; [|by left].
  pose proof (same_but_stream_kept _ _ (reread_same _ _ Hb)) as Hre.
  destruct (io_ReadAll body) as [b [|]] eqn:Hall.
  { destruct body as [|b' fails]; [done|]. simpl in Hall.
    injection Hall as -> ->. by destruct (Hread b). }
  simpl in Hre.
  destruct (segment_proxy_plugin.contentBytes L _ b) as [format|content]; [by left|].
  destruct (json_Unmarshal_SegmentData L content) as [d|]; [|by left]. simpl.
  match goal with
  | |- context [segment_proxy_plugin.range_Evts L now ?k ?evts ?s1] =>
      destruct (range_Evts_lengths k evts s1) as [Hkept|Hagree]; [|by right]
  end.
  left. eapply lengths_kept_trans; [exact Hre|exact Hkept].
Qed.

End segment_proxy.

(** ** The variant of the handler that fans out *)

Section segment_proxy_fanout.

Import segment_proxy_plugin_fanout.

Context (L : GoLib) (plug : segmentProxyPlugin) (now : Z).

Lemma copy_headers_empty (h : Header) :
  copy_headers h ∅ = filter (λ kv, kv.1 ≠ "Content-Length") h.
Proof. unfold copy_headers. apply (right_id_L ∅ (∪)). Qed.

Lemma proxy_event_spec (r : Request) (jsonBody : bytes) (s : state) (n : Z) :
  let out := proxy_event L plug r jsonBody s n in
  request out.1 = request s ∧ response out.1 = response s
  ∧ (sent out.1 = sent s
     ∨ sent out.1 = sent s ++ [proxy_request r jsonBody])
  ∧ (url_accepted L (Url (proxy_request r jsonBody)) = true →
     sent out.1 = sent s ++ [proxy_request r jsonBody]).
Proof.
  unfold proxy_event, proxy_request. simpl.
  destruct (url_accepted L _) eqn:Hacc; simpl.
  - destruct (Do (client plug) _); simpl; repeat split; auto.
  - repeat split; auto. intros; done.
Qed.

(** The loop leaves the request and the response writer alone and only
    adds to the requests sent. *)
Lemma range_Evts_keeps_request (writeKey userId : string) (evts : list Event)
    (s : state) (n : Z) :
  let out := range_Evts L plug now writeKey userId evts s n in
  request out.1 = request s ∧ response out.1 = response s
  ∧ sent s `prefix_of` sent out.1.
Proof.
  revert s n. induction evts as [|event evts IH]; intros s n; simpl.
  { done. }
  case_bool_decide; [|apply IH].
  destruct (json_Unmarshal_strings L (Args event)) as [[|url args]|]; try apply IH.
  destruct (json_Marshal L _) as [jsonBody|].
  - destruct (proxy_event_spec (request s) jsonBody s n) as (Hr & Hw & Hs & _).
    destruct (proxy_event L plug (request s) jsonBody s n) as [s1 n1]. simpl in *.
    destruct (IH s1 n1) as (Hr' & Hw' & Hs').
    rewrite Hr', Hw', Hr, Hw. repeat split.
    etrans; [|exact Hs']. destruct Hs as [-> | ->]; [done|]. by apply prefix_app_r.
  - destruct (IH (logger_Printf s "Failed to marshal request body: %v") n)
      as (Hr' & Hw' & Hs').
    by rewrite Hr', Hw'.
Qed.

(** A navigate event whose arguments do not give a URL is skipped, and
    the loop goes on with the events after it. *)
Lemma range_Evts_continues (writeKey userId : string) (event : Event)
    (evts : list Event) (s : state) (n : Z) :
  Kind event = navigateEvent →
  json_Unmarshal_strings L (Args event) = None
  ∨ json_Unmarshal_strings L (Args event) = Some [] →
  range_Evts L plug now writeKey userId (event :: evts) s n
  = range_Evts L plug now writeKey userId evts s n.
Proof.
  intros Hk Hargs. simpl. rewrite bool_decide_eq_true_2 by done.
  by destruct Hargs as [-> | ->].
Qed.

(** Every navigate event whose arguments give a URL has its own request
    among those sent. *)
Lemma range_Evts_sends_each (writeKey userId : string) (evts : list Event)
    (s : state) (n : Z) (event : Event) (url : string) (args : list string)
    (jsonBody : bytes) :
  event ∈ evts →
  Kind event = navigateEvent →
  json_Unmarshal_strings L (Args event) = Some (url :: args) →
  json_Marshal L (segment_proxy_plugin.requestBody writeKey userId now url)
    = Some jsonBody →
  url_accepted L (Url (proxy_request (request s) jsonBody)) = true →
  proxy_request (request s) jsonBody
    ∈ sent (range_Evts L plug now writeKey userId evts s n).1.
Proof.
  intros Hin Hk Hargs Hbody Hacc. revert s n Hacc.
  induction evts as [|e evts IH]; intros s n Hacc; [by apply elem_of_nil in Hin|].
  apply elem_of_cons in Hin as [<- | Hin].
  - simpl. rewrite bool_decide_eq_true_2 by done. rewrite Hargs, Hbody.
    destruct (proxy_event_spec (request s) jsonBody s n) as (Hr & _ & _ & Hs).
    specialize (Hs Hacc).
    destruct (proxy_event L plug (request s) jsonBody s n) as [s1 n1]. simpl in *.
    destruct (range_Evts_keeps_request writeKey userId evts s1 n1) as (_ & _ & Hpre).
    eapply elem_of_prefix; [|exact Hpre]. rewrite Hs. set_solver.
  - assert (Hstep : ∃ s1 n1,
      range_Evts L plug now writeKey userId (e :: evts) s n
      = range_Evts L plug now writeKey userId evts s1 n1 ∧ request s1 = request s).
    { simpl. case_bool_decide; [|by eexists _, _].
      destruct (json_Unmarshal_strings L (Args e)) as [[|u a]|]; try by eexists _, _.
      destruct (json_Marshal L (segment_proxy_plugin.requestBody writeKey userId now u))
        as [jb|]; [|by eexists _, _].
      destruct (proxy_event_spec (request s) jb s n) as (Hr & _).
      destruct (proxy_event L plug (request s) jb s n) as [s1 n1].
      simpl in *. by eexists _, _. }
    destruct Hstep as (s1 & n1 & -> & Hr). rewrite <- Hr. apply IH; [done|]. by rewrite Hr.
Qed.

(** The handler of the variant returns [false] and hands on the request
    it received: nothing but the stream behind [Body] is replaced, by a
    fresh one over the same bytes. *)
Lemma HandleRequest_keeps_request (s : state) (info : RequestInfo) (b : bytes) :
  Body (request s) = Some (Reader b false) →
  ∃ s', HandleRequest L plug now s info = Returns false s'
        ∧ request s' = request s ∧ response s' = response s.
Proof.
  intros Hb. unfold HandleRequest. destruct (Serviced info); [by eexists|].
  destruct (strings_Contains _ _); simpl; [|by eexists].
  rewrite Hb. simpl. rewrite (rewound _ _ Hb).
  replace (set_request s (request s)) with s by by destruct s.
  destruct (contentBytes L _ b) as [format|content]; [by eexists|].
  destruct (json_Unmarshal_SegmentData L content) as [d|]; [|by eexists].
  destruct (range_Evts_keeps_request (WriteKey d)
              (Values_Get (Query (Url (request s))) "UserId") (Evts d) s 0)
    as (Hr & Hw & _).
  destruct (range_Evts L plug now _ _ _ s 0) as [s1 n1]. simpl in *.
  destruct (0 <? n1); by eexists.
Qed.

End segment_proxy_fanout.

(** ** The factory of the content enricher *)

Section factory.

Import content_enricher_plugin.

(** copying the entries of one map into another, whatever the order *)
Lemma foldl_insert_union {V : Type} (l : list (string * V)) (m : gmap string V) :
  NoDup l.*1 →
  foldl (λ m kv, <[kv.1 := kv.2]> m) m l = list_to_map l ∪ m.
Proof.
  revert m. induction l as [|[k v] l IH]; intros m Hnd.
  { simpl. by rewrite (left_id_L ∅ (∪)). }
  rewrite fmap_cons in Hnd. apply NoDup_cons in Hnd as [Hk Hnd].
  simpl. rewrite IH by done. rewrite <- insert_union_l.
  symmetry. apply insert_union_r. by apply not_elem_of_list_to_map_1.
Qed.

Lemma copy_into_union {V : Type} (value m : gmap string V) :
  copy_into value m = value ∪ m.
Proof.
  unfold copy_into. rewrite foldl_insert_union by apply NoDup_fst_map_to_list.
  by rewrite list_to_map_to_list.
Qed.

Lemma copy_into_empty {V : Type} (value : gmap string V) : copy_into value ∅ = value.
Proof. rewrite copy_into_union. apply (right_id_L ∅ (∪)). Qed.

(** [New] once both options have been looked up without an error *)
Lemma New_well_formed (c : config.Section) :
  (∀ err, config.body c ≠ config.Malformed err) →
  (∀ err, config.headers c ≠ config.Malformed err) →
  New c =
    if bool_decide (size (configured (config.body c)) = 0%nat)
       && bool_decide (size (configured (config.headers c)) = 0%nat)
    then no_plugin
    else loaded (mkPlugin (configured (config.body c)) (configured (config.headers c))).
Proof.
  intros Hb Hh. unfold New.
  destruct (config.body c) as [|err|b]; [|by destruct (Hb err)|];
    (destruct (config.headers c) as [|err|h]; [|by destruct (Hh err)|]); simpl;
    by rewrite ?copy_into_empty.
Qed.

End factory.

(** ** The content enricher *)

Section enricher.

Import content_enricher_plugin.

Context (L : GoLib) (RelayRelease : string) (plug : contentEnricherPlugin).

(** The loop over the configured fields adds each field whose key the
    body does not have and keeps the body's own value for the others:
    the result is the union in which the body wins. *)
Lemma range_bodyEnrichments_union (entries : list (string * value))
    (m : gmap string value) (s : state) :
  NoDup entries.*1 →
  ∃ lines, range_bodyEnrichments entries (MakeMap m) s
           = Some (MakeMap (m ∪ list_to_map entries), logs_more s lines).
Proof.
  revert m s. induction entries as [|[k v] entries IH]; intros m s Hnd.
  { exists []. simpl. by rewrite (right_id_L ∅ (∪)), logs_more_nil. }
  rewrite fmap_cons in Hnd. apply NoDup_cons in Hnd as [Hk Hnd]. simpl in *.
  destruct (m !! k) as [v'|] eqn:Hm.
  - destruct (IH m (logger_Printf s
      "Skipping enrichment for body key '%s' because it already exists.") Hnd)
      as [lines ->].
    eexists. rewrite logger_Printf_logs_more, logs_more_app. do 2 f_equal.
    f_equal. apply map_eq. intros i. rewrite !lookup_union.
    destruct (decide (i = k)) as [->|Hne].
    + rewrite Hm. by rewrite !union_Some_l.
    + by rewrite lookup_insert_ne.
  - destruct (IH (<[k := v]> m) s Hnd) as [lines ->].
    exists lines. do 3 f_equal.
    rewrite <- insert_union_l. by apply insert_union_r.
Qed.

Lemma range_bodyEnrichments_configured (m : gmap string value) (s : state) :
  ∃ lines, range_bodyEnrichments (map_to_list (bodyEnrichments plug)) (MakeMap m) s
           = Some (MakeMap (m ∪ bodyEnrichments plug), logs_more s lines).
Proof.
  destruct (range_bodyEnrichments_union (map_to_list (bodyEnrichments plug)) m s)
    as [lines H]; [apply NoDup_fst_map_to_list|].
  exists lines. by rewrite H, list_to_map_to_list.
Qed.

(** a field that the body has keeps its value, a field it lacks gets the
    configured one, and no other field appears *)
Lemma enriched_lookup (m : gmap string value) (key : string) :
  (m ∪ bodyEnrichments plug) !! key
  = match m !! key with
    | Some v => Some v
    | None => bodyEnrichments plug !! key
    end.
Proof.
  rewrite lookup_union. destruct (m !! key); [apply union_Some_l|].
  apply (left_id_L None (∪)).
Qed.

(** an object that has every configured key is left as it is *)
Lemma already_enriched (m : gmap string value) :
  (∀ key, is_Some (bodyEnrichments plug !! key) → is_Some (m !! key)) →
  m ∪ bodyEnrichments plug = m.
Proof.
  intros Hall. apply map_eq. intros key. rewrite enriched_lookup.
  destruct (m !! key) eqn:Hm; [done|].
  destruct (bodyEnrichments plug !! key) eqn:HE; [|done].
  destruct (Hall key) as [v' Hv]; [by eexists|]. congruence.
Qed.

Lemma enriched_has_configured_keys (m : gmap string value) (key : string) :
  is_Some (bodyEnrichments plug !! key) → is_Some ((m ∪ bodyEnrichments plug) !! key).
Proof. intros HE. rewrite enriched_lookup. by destruct (m !! key). Qed.



(** Whenever [enrichBodyContent] leaves other bytes in the body than it
    found, it has enriched it: in every other branch the bytes behind
    [Body] are those that were there. *)
Lemma enrichBodyContent_changes_only_by_enriching (s : state) :
  unread_bytes (request (final (enrichBodyContent L plug s))) ≠ unread_bytes (request s) →
  bodyEnrichments plug ≠ ∅
  ∧ ∃ m, body_enriched L plug s (enrichBodyContent L plug s) m.
Proof.
  intros Hchg.
  assert (Hkeep : ∀ b fails, Body (request s) = Some (Reader b fails) →
            unread_bytes (with_Body (request s) (Some (NewReader b)))
            = unread_bytes (request s)).
  { intros b fails Hb. unfold unread_bytes. simpl. by rewrite Hb. }
  unfold enrichBodyContent in *.
  case_bool_decide as HE; [done|].
  split; [by rewrite <- map_size_empty_iff|].
  case_bool_decide as Hct; simpl in *; [|done].
  destruct (Body (request s)) as [[|b fails]|] eqn:Hb; simpl in *; try done.
  specialize (Hkeep b fails eq_refl).
  destruct fails; simpl in *; [done|].
  case_bool_decide as Hlen; simpl in *; [done|].
  destruct (json_Unmarshal_map L b) as [[|m]|] eqn:Hparse; simpl in *; try done.
  { destruct (map_to_list (bodyEnrichments plug)) as [|[k v] l] eqn:Hl; simpl in *.
    - by apply map_to_list_empty_iff, map_size_empty_iff in Hl.
    - unfold unread_bytes in *. simpl in *. by rewrite Hb in *. }
  destruct (range_bodyEnrichments_configured m
              (set_request s (with_Body (request s) (Some (NewReader b)))))
    as [lines Hloop].
  rewrite Hloop in *. simpl in *.
  destruct (json_Marshal L (Map (m ∪ bodyEnrichments plug))) as [enriched|] eqn:Hwrite;
    simpl in *; [|done].
  exists m, b, enriched, (lines ++ ["Enriched body. New length: %d"]).
  rewrite len_nil_iff in Hlen. repeat split; try done.
  rewrite (rewound _ _ Hb).
  unfold logger_Printf, logs_more, set_request, enriched_request. simpl.
  by rewrite app_assoc.
Qed.

(** [enrichBodyContent] either enriches the body, or leaves the request
    as it is up to the stream behind [Body]. *)
Lemma enrichBodyContent_cases (s : state) :
  let o := content_enricher_plugin.enrichBodyContent L plug s in
  (∃ m, body_enriched L plug s o m) ∨ same_but_stream (request s) (request (final o)).
Proof.
  intros o.
  destruct (decide (unread_bytes (request (final o)) = unread_bytes (request s)))
    as [Hsame|Hchg].
  2:{ left. by apply enrichBodyContent_changes_only_by_enriching in Hchg as [_ ?]. }
  subst o. unfold content_enricher_plugin.enrichBodyContent in *.
  pose proof (same_but_stream_refl (request s)) as Hrefl.
  case_bool_decide as HE; [by right|].
  case_bool_decide as Hct; simpl in *; [|by right].
  destruct (Body (request s)) as [[|b fails]|] eqn:Hb; simpl in *; try by right.
  pose proof (reread_same (request s) (Reader b fails) Hb) as Hre. simpl in Hre.
  destruct fails; simpl in *; [by right|].
  case_bool_decide as Hlen; simpl in *; [by right|].
  destruct (json_Unmarshal_map L b) as [[|m]|] eqn:Hparse; simpl in *; try by right.
  { destruct (map_to_list (content_enricher_plugin.bodyEnrichments plug))
      as [|[k v] l] eqn:Hl; simpl in *; [|by right].
    by apply map_to_list_empty_iff, map_size_empty_iff in Hl. }
  destruct (range_bodyEnrichments_configured m
              (set_request s (with_Body (request s) (Some (NewReader b)))))
    as [lines Hloop].
  rewrite Hloop in *. simpl in *.
  destruct (json_Marshal L (Map (m ∪ content_enricher_plugin.bodyEnrichments plug)))
    as [enriched|] eqn:Hwrite; simpl in *; [|by right].
  left. exists m, b, enriched, (lines ++ ["Enriched body. New length: %d"]).
  rewrite len_nil_iff in Hlen. repeat split; try done.
  rewrite (rewound _ _ Hb).
  unfold logger_Printf, logs_more, set_request, enriched_request. simpl.
  by rewrite app_assoc.
Qed.

Lemma foldl_Header_Set_keeps (l : list (string * string)) (h : Header) (key : string) :
  (∀ kv, kv ∈ l →
     textproto.CanonicalMIMEHeaderKey kv.1 ≠ textproto.CanonicalMIMEHeaderKey key) →
  Header_Get (foldl (λ h kv, Header_Set h kv.1 kv.2) h l) key = Header_Get h key.
Proof.
  revert h. induction l as [|kv l IH]; intros h Hl; [done|]. simpl.
  rewrite IH by (intros kv' Hin; apply Hl; by right).
  apply Header_Get_Set_ne, Hl. by left.
Qed.

Lemma enriched_headers_keep_Content_Length (h : Header) :
  leaves_Content_Length plug →
  Header_Get (enriched_headers plug h) "Content-Length" = Header_Get h "Content-Length".
Proof.
  intros Hleaves. apply foldl_Header_Set_keeps. intros [k v] Hin.
  apply elem_of_map_to_list in Hin. apply Hleaves. by eexists.
Qed.

Lemma enrichHeaderContent_spec (s : state) :
  ∃ lines,
    content_enricher_plugin.enrichHeaderContent plug s
    = Returns false
        (logs_more
           (set_request s
              (with_Headers (request s) (enriched_headers plug (Headers (request s)))))
           lines).
Proof.
  unfold content_enricher_plugin.enrichHeaderContent, enriched_headers.
  case_bool_decide as Hsize.
  - exists []. apply map_size_empty_iff in Hsize. rewrite Hsize, map_to_list_empty. simpl.
    by rewrite with_Headers_same, set_request_same, logs_more_nil.
  - by exists ["Enriched headers: %v"].
Qed.

Lemma version_header_keeps_Content_Length (h : Header) :
  Header_Get (Header_Add h content_enricher_plugin.PluginVersionHeaderName RelayRelease)
    "Content-Length"
  = Header_Get h "Content-Length".
Proof. by apply Header_Get_Add_ne. Qed.

Lemma stamped_keeps (s : state) :
  Body (request (stamped RelayRelease plug s)) = Body (request s)
  ∧ ContentLength (request (stamped RelayRelease plug s)) = ContentLength (request s)
  ∧ response (stamped RelayRelease plug s) = response s
  ∧ logged (stamped RelayRelease plug s) = logged s.
Proof. unfold stamped. by destruct (_ || _). Qed.

(** [HandleRequest] on a request that is not yet serviced: the configured
    headers are set, [enrichBodyContent] runs on the result, and when it
    returns [false] the version header is added. *)
Lemma HandleRequest_after_headers (s : state) (info : RequestInfo) :
  Serviced info = false →
  ∃ lines,
    HandleRequest L RelayRelease plug s info
    = match enrichBodyContent L plug
              (logs_more
                 (set_request s
                    (with_Headers (request s)
                       (enriched_headers plug (Headers (request s)))))
                 lines) with
      | Returns false s' => Returns false (stamped RelayRelease plug s')
      | o => o
      end.
Proof.
  intros Hs. unfold HandleRequest. rewrite Hs.
  destruct (enrichHeaderContent_spec s) as [lines ->]. exists lines. simpl.
  destruct (enrichBodyContent L plug _) as [[|] s'|s']; simpl; try done.
  unfold stamped. by destruct (_ || _).
Qed.

(** A body that is already enriched (it parses as an object with every
    configured key) leaves the handler as it came, or as the serialization
    of that same object. *)
Lemma already_enriched_body (s : state) (info : RequestInfo) (b : bytes)
    (m : gmap string value) :
  Body (request s) = Some (Reader b false) →
  json_Unmarshal_map L b = Some (MakeMap m) →
  (∀ key, is_Some (bodyEnrichments plug !! key) → is_Some (m !! key)) →
  let after := unread_bytes (request (final (HandleRequest L RelayRelease plug s info))) in
  after = b ∨ json_Marshal L (Map m) = Some after.
Proof.
  intros Hb Hparse Hall.
  assert (Hin : unread_bytes (request s) = b) by (unfold unread_bytes; by rewrite Hb).
  destruct (Serviced info) eqn:Hs.
  { left. unfold HandleRequest. by rewrite Hs. }
  destruct (HandleRequest_after_headers s info Hs) as [lines ->].
  set (sh := logs_more _ lines).
  assert (Hkeep : ∀ s', unread_bytes (request (stamped RelayRelease plug s'))
                        = unread_bytes (request s')).
  { intros s'. unfold unread_bytes. by destruct (stamped_keeps s') as (-> & _). }
  destruct (enrichBodyContent_cases sh) as [[m' Hm]|Hsame].
  - right. destruct Hm as (b' & enriched & lines' & _ & Hb' & _ & Hp & Hw & ->).
    simpl in Hb'. rewrite Hb in Hb'. injection Hb' as <-.
    rewrite Hparse in Hp. injection Hp as <-.
    rewrite (already_enriched m Hall) in Hw. simpl. by rewrite Hkeep.
  - left. destruct Hsame as (_ & _ & _ & _ & _ & Hbytes & _).
    destruct (enrichBodyContent L plug sh) as [[|] s'|s']; simpl in *;
      rewrite ?Hkeep; by rewrite Hbytes.
Qed.

(** The enricher either leaves the bytes of the body and [ContentLength]
    as they were (and the Content-Length header too, unless a configured
    header overwrites it), or ends with the lengths of the body it
    installed. *)
Lemma enricher_lengths (s : state) (info : RequestInfo) :
  let r' := request
              (final (content_enricher_plugin.HandleRequest L RelayRelease plug s info)) in
  (body_kept (request s) r' ∧ (leaves_Content_Length plug → lengths_kept (request s) r'))
  ∨ lengths_agree r'.
Proof.
  unfold content_enricher_plugin.HandleRequest.
  destruct (Serviced info).
  { left. split; [apply body_kept_refl|intros _; apply lengths_kept_refl]. }
  destruct (enrichHeaderContent_spec s) as [lines ->]. simpl.
  set (sh := logs_more _ lines).
  assert (Hh : body_kept (request s) (request sh)
               ∧ (leaves_Content_Length plug → lengths_kept (request s) (request sh))).
  { split; [by repeat split|]. intros Hleaves. split; [by repeat split|].
    simpl. by apply enriched_headers_keep_Content_Length. }
  destruct (enrichBodyContent_cases sh) as [[m Hm]|Hsame].
  - right. destruct Hm as (b & enriched & lines' & _ & _ & _ & _ & _ & ->). simpl.
    destruct (_ || _); simpl.
    + split; [by intros ?|]. split; [done|].
      unfold unread_bytes. simpl. rewrite version_header_keeps_Content_Length.
      apply Header_Get_Set.
    + apply lengths_agree_enriched_request.
  - left. apply same_but_stream_kept in Hsame.
    assert (Hfinal : ∀ o, lengths_kept (request sh) (request (final o)) →
              lengths_kept (request sh)
                (request (final (content_enricher_plugin.unless_serviced o (λ s0,
                   if bool_decide (0 < size (content_enricher_plugin.headerEnrichments plug))%nat
                      || bool_decide (0 < size (content_enricher_plugin.bodyEnrichments plug))%nat
                   then Returns false
                          (set_request s0 (with_Headers (request s0)
                             (Header_Add (Headers (request s0))
                                content_enricher_plugin.PluginVersionHeaderName
                                RelayRelease)))
                   else Returns false s0))))).
    { intros [[|] s0|s0] Hk; simpl; try done.
      destruct (_ || _); simpl; [|done].
      destruct Hk as [Hk Hget]. split; [done|].
      simpl. by rewrite version_header_keeps_Content_Length. }
    specialize (Hfinal _ Hsame). destruct Hh as [Hh1 Hh2]. split.
    + eapply body_kept_trans; [exact Hh1|]. apply Hfinal.
    + intros Hleaves. eapply lengths_kept_trans; [by apply Hh2|exact Hfinal].
Qed.

End enricher.

(** whatever the gzip reader of the library does, [enrichBodyContent] does
    the same: it never calls it, and never looks at Content-Encoding *)
Lemma enricher_never_decodes (L : GoLib) (gzip_decode' : bytes → gzip_result)
    (plug : content_enricher_plugin.contentEnricherPlugin) (s : state) :
  content_enricher_plugin.enrichBodyContent
    (mkGoLib (json_Unmarshal_SegmentData L) (json_Unmarshal_strings L)
       (json_Unmarshal_map L) (json_Marshal L) gzip_decode' (url_accepted L)) plug s
  = content_enricher_plugin.enrichBodyContent L plug s.
Proof. by destruct L. Qed.

(** ** The handlers on the requests of the tests *)

Section runs.

Import Examples.

(** The first case of the test table, "single navigate event": the
    variant that fans out hands on the request as it came and sends one
    POST to /v1/page. *)
Lemma fanout_single_navigate_event :
  let r := NewRequest "/rec/bundle/v2" (bundle [event 37 "https://example.com"]) in
  ∃ s' page,
    segment_proxy_plugin_fanout.HandleRequest Std.lib
      (segment_proxy_plugin_fanout.mkPlugin server) now (start r) fresh
    = Returns false s'
    ∧ request s' = r
    ∧ json_Marshal Std.lib
        (segment_proxy_plugin.requestBody "test-key" "test-user" now "https://example.com")
      = Some page
    ∧ sent s' = [proxy_request r page].
Proof. eexists _, _. split; [by vm_compute|]. by vm_compute. Qed.

(** "path containing rec/bundle/v2 should be processed": the variant
    processes the nested path. *)
Lemma fanout_nested_path :
  let r := NewRequest "/api/v1/rec/bundle/v2/data" (bundle [event 37 "https://example.com"]) in
  ∃ s', segment_proxy_plugin_fanout.HandleRequest Std.lib
          (segment_proxy_plugin_fanout.mkPlugin server) now (start r) fresh
        = Returns false s'
        ∧ request s' = r ∧ length (sent s') = 1%nat.
Proof. eexists. split; [by vm_compute|]. by vm_compute. Qed.

(** "multiple navigate events should be processed": two requests leave,
    one for each navigate event. *)
Lemma fanout_multiple_navigate_events :
  let r := NewRequest "/rec/bundle/v2"
             (bundle [event 37 "https://example.com"; event 1 "not-a-navigate-event";
                      event 37 "https://example.org"]) in
  ∃ s' page1 page2,
    segment_proxy_plugin_fanout.HandleRequest Std.lib
      (segment_proxy_plugin_fanout.mkPlugin server) now (start r) fresh
    = Returns false s'
    ∧ request s' = r
    ∧ json_Marshal Std.lib
        (segment_proxy_plugin.requestBody "test-key" "test-user" now "https://example.com")
      = Some page1
    ∧ json_Marshal Std.lib
        (segment_proxy_plugin.requestBody "test-key" "test-user" now "https://example.org")
      = Some page2
    ∧ sent s' = [proxy_request r page1; proxy_request r page2].
Proof. eexists _, _, _. split; [by vm_compute|]. by vm_compute. Qed.

(** the enricher test "Body content can be enriched with new fields" with
    the identity encoding: the body that leaves is the expected one *)
Lemma identity_body_is_enriched :
  let s := Examples.start
             (Examples.post "/" [("Content-Type", "application/json")]
                Examples.original_content) in
  let expected :=
    bytes_of_string
      ("{" +:+ Examples.quote "content" +:+ ":" +:+ Examples.quote "Original content"
       +:+ "," +:+ Examples.quote "new-body-key" +:+ ":"
       +:+ Examples.quote "enrich payload" +:+ "}") in
  ∃ s', content_enricher_plugin.HandleRequest Std.lib "v0.3.2" Examples.enricher s
          Examples.fresh
        = Returns false s'
        ∧ unread_bytes (request s') = expected
        ∧ lengths_agree (request s').
Proof.
  eexists. split; [by vm_compute|]. split; [by vm_compute|].
  split; [by intros b|]. by vm_compute.
Qed.

End runs.

(** * Properties of the handlers *)

(** ** More on the segment-proxy handler of segment_proxy_plugin.go *)

Section more_segment_proxy.

Context (L : GoLib) (now : Z).

Lemma proxy_frame_refl (r : Request) : proxy_frame r r.
Proof. by repeat split. Qed.

Lemma proxy_frame_trans (r1 r2 r3 : Request) :
  proxy_frame r1 r2 → proxy_frame r2 r3 → proxy_frame r1 r3.
Proof.
  intros (H1 & H2 & H3 & H4 & H5) (G1 & G2 & G3 & G4 & G5).
  repeat split; try congruence. intros key Hk. by rewrite G5, H5.
Qed.

Lemma proxy_frame_retargeted (s : state) : proxy_frame (request s) (request (retargeted s)).
Proof. by repeat split. Qed.

Lemma proxy_frame_page_request (r : Request) (jsonBody : bytes) :
  proxy_frame r (page_request r jsonBody).
Proof.
  repeat split. intros key Hk. unfold page_request, Header_Set. simpl.
  by rewrite lookup_insert_ne.
Qed.

Lemma range_Evts_frame (writeKey : string) (evts : list Event) (s : state) :
  proxy_frame (request s) (request (segment_proxy_plugin.range_Evts L now writeKey evts s)).
Proof.
  revert s. induction evts as [|event evts IH]; intros s; [apply proxy_frame_refl|].
  destruct (decide (Kind event = segment_proxy_plugin.navigateEvent)) as [Hk|Hk];
    [|rewrite range_Evts_skips by done; apply IH].
  destruct (json_Unmarshal_strings L (Args event)) as [[|url args]|] eqn:Hargs;
    [rewrite range_Evts_returns_early by auto; apply proxy_frame_retargeted| |
     rewrite range_Evts_returns_early by auto; apply proxy_frame_retargeted].
  destruct (json_Marshal L
    (segment_proxy_plugin.requestBody writeKey
       (Values_Get (Query (Url (request s))) "UserId") now url)) as [jsonBody|] eqn:Hbody.
  - rewrite (range_Evts_navigate L now writeKey event evts s url args jsonBody) by done.
    eapply proxy_frame_trans; [|apply IH]. apply proxy_frame_page_request.
  - rewrite (range_Evts_marshal_fails L now writeKey event evts s url args) by done.
    apply proxy_frame_retargeted.
Qed.

(** X1.  Whatever the request and the bundle, the segment-proxy handler
    returns [false], writes nothing to the response writer and sends no
    request; and it leaves the scheme, host and query of the URL, the TLS
    state and every header other than Content-Length as they were. *)
Theorem segment_proxy_never_services (s : state) (info : RequestInfo) :
  ∃ s', segment_proxy_plugin.HandleRequest L now s info = Returns false s'
        ∧ response s' = response s
        ∧ sent s' = sent s
        ∧ proxy_frame (request s) (request s').
Proof.
  destruct (HandleRequest_returns_false L now s info) as (s' & Hret & Hresp & Hsent).
  exists s'. split; [done|]. split; [done|]. split; [done|].
  revert Hret. unfold segment_proxy_plugin.HandleRequest.
  destruct (Serviced info); [intros [= <-]; apply proxy_frame_refl|].
  case_bool_decide; simpl; [|intros [= <-]; apply proxy_frame_refl].
  destruct (Body (request s)) as [body|]; [|intros [= <-]; apply proxy_frame_refl].
  destruct (io_ReadAll body) as [b [|]]; [by intros [= <-]|].
  destruct (segment_proxy_plugin.contentBytes L _ b) as [format|content];
    [by intros [= <-]|].
  destruct (json_Unmarshal_SegmentData L content) as [d|]; [|by intros [= <-]].
  intros [= <-].
  match goal with
  | |- context [segment_proxy_plugin.range_Evts L now ?k ?evts ?s1] =>
      apply (proxy_frame_trans _ (request s1)); [done|apply range_Evts_frame]
  end.
Qed.

Lemma HandleRequest_reaches_the_loop (s : state) (info : RequestInfo) (d : SegmentData) :
  reaches_the_loop L s info d →
  segment_proxy_plugin.HandleRequest L now s info
  = Returns false (segment_proxy_plugin.range_Evts L now (WriteKey d) (Evts d) s).
Proof.
  intros (Hs & Hp & b & content & Hb & Hc & Hd).
  rewrite (HandleRequest_processes L now s info b Hs Hp Hb). by rewrite Hc, Hd.
Qed.

Lemma range_Evts_page_body (writeKey : string) (event : Event) (evts : list Event)
    (s : state) (jsonBody : bytes) :
  Kind event = segment_proxy_plugin.navigateEvent →
  page_body L now writeKey (Values_Get (Query (Url (request s))) "UserId") event
    = Some jsonBody →
  segment_proxy_plugin.range_Evts L now writeKey (event :: evts) s
  = segment_proxy_plugin.range_Evts L now writeKey evts
      (set_request s (page_request (request s) jsonBody)).
Proof.
  intros Hk Hbody. unfold page_body in Hbody.
  destruct (json_Unmarshal_strings L (Args event)) as [[|url args]|] eqn:Hargs; try done.
  by apply (range_Evts_navigate L now writeKey event evts s url args jsonBody).
Qed.

Lemma page_request_again (r : Request) (b1 b2 : bytes) :
  page_request (page_request r b1) b2 = page_request r b2.
Proof.
  unfold page_request, Header_Set, URL_with_Path. simpl. by rewrite insert_insert_eq.
Qed.

(** the loop once a navigate event has been met: the new path and method stay *)
Lemma range_Evts_target (writeKey : string) (evts : list Event) (s : state) :
  let s' := segment_proxy_plugin.range_Evts L now writeKey evts s in
  (Path (Url (request s)) = "/v1/page" ∧ Method (request s) = "POST")
  ∨ Exists (λ event, Kind event = segment_proxy_plugin.navigateEvent) evts →
  Path (Url (request s')) = "/v1/page" ∧ Method (request s') = "POST".
Proof.
  revert s. induction evts as [|event evts IH]; intros s; simpl.
  { intros [H|H]; [done|by apply Exists_nil in H]. }
  intros H. case_bool_decide as Hk.
  - destruct (json_Unmarshal_strings L (Args event)) as [[|url args]|]; try done.
    destruct (json_Marshal L _); [|done]. apply IH. by left.
  - apply IH. destruct H as [H|H]; [by left|].
    apply Exists_cons in H as [H|H]; [done|by right].
Qed.

(** the loop over events that are no navigate events or well-formed ones:
    the request is as it was, or carries the page call of one of them *)
Lemma range_Evts_app (writeKey : string) (pre rest : list Event) (s : state) :
  Forall (λ event, Kind event = segment_proxy_plugin.navigateEvent →
            is_Some (page_body L now writeKey
                       (Values_Get (Query (Url (request s))) "UserId") event)) pre →
  ∃ s1, segment_proxy_plugin.range_Evts L now writeKey (pre ++ rest) s
        = segment_proxy_plugin.range_Evts L now writeKey rest s1
        ∧ (s1 = s ∨ ∃ jsonBody, s1 = set_request s (page_request (request s) jsonBody)).
Proof.
  revert s. induction pre as [|event pre IH]; intros s Hpre; [exists s; auto|].
  apply Forall_cons in Hpre as [Hevent Hpre]. rewrite <- app_comm_cons.
  destruct (decide (Kind event = segment_proxy_plugin.navigateEvent)) as [Hk|Hk].
  - destruct (Hevent Hk) as [jsonBody Hbody].
    rewrite (range_Evts_page_body writeKey event _ s jsonBody Hk Hbody).
    destruct (IH (set_request s (page_request (request s) jsonBody)) Hpre)
      as (s1 & -> & [-> | [jsonBody' ->]]); eexists; (split; [done|]); right.
    + by exists jsonBody.
    + exists jsonBody'. simpl. by rewrite page_request_again.
  - rewrite range_Evts_skips by done. by apply IH.
Qed.

Lemma range_Evts_last (writeKey : string) (pre post : list Event) (event : Event)
    (s : state) (jsonBody : bytes) :
  let userId := Values_Get (Query (Url (request s))) "UserId" in
  Forall (λ e, Kind e = segment_proxy_plugin.navigateEvent →
               is_Some (page_body L now writeKey userId e)) pre →
  Kind event = segment_proxy_plugin.navigateEvent →
  page_body L now writeKey userId event = Some jsonBody →
  Forall (λ e, Kind e ≠ segment_proxy_plugin.navigateEvent) post →
  segment_proxy_plugin.range_Evts L now writeKey (pre ++ event :: post) s
  = set_request s (page_request (request s) jsonBody).
Proof.
  intros userId Hpre Hk Hbody Hpost.
  destruct (range_Evts_app writeKey pre (event :: post) s Hpre) as (s1 & -> & Hs1).
  assert (Hq : Values_Get (Query (Url (request s1))) "UserId" = userId)
    by by destruct Hs1 as [-> | [jb ->]].
  rewrite (range_Evts_page_body writeKey event post s1 jsonBody Hk) by by rewrite Hq.
  rewrite range_Evts_no_navigate by done.
  destruct Hs1 as [-> | [jb ->]]; [done|]. simpl. by rewrite page_request_again.
Qed.

(** X2.  When the handler gets as far as the events of the bundle and one
    of them is a navigate event, the request leaves with the path
    /v1/page and the method POST, whatever the arguments of the events
    are; when none is, the handler returns the state as it found it. *)
Theorem navigate_event_retargets_the_request (s : state) (info : RequestInfo)
    (d : SegmentData) :
  reaches_the_loop L s info d →
  let s' := final (segment_proxy_plugin.HandleRequest L now s info) in
  (Exists (λ event, Kind event = segment_proxy_plugin.navigateEvent) (Evts d) →
   Path (Url (request s')) = "/v1/page" ∧ Method (request s') = "POST")
  ∧ (Forall (λ event, Kind event ≠ segment_proxy_plugin.navigateEvent) (Evts d) →
     s' = s).
Proof.
  intros Hloop. rewrite (HandleRequest_reaches_the_loop s info d Hloop). simpl. split.
  - intros Hnav. apply range_Evts_target. by right.
  - apply range_Evts_no_navigate.
Qed.

(** X3.  When every navigate event of the bundle gives a URL and its body
    serializes, the request leaves as the page call of the last navigate
    event: path /v1/page, method POST, the body built for that event and
    both lengths set to its length; nothing is logged. *)
Theorem last_navigate_event_decides (s : state) (info : RequestInfo) (d : SegmentData)
    (pre post : list Event) (event : Event) (jsonBody : bytes) :
  reaches_the_loop L s info d →
  let userId := Values_Get (Query (Url (request s))) "UserId" in
  Evts d = pre ++ event :: post →
  Forall (λ e, Kind e = segment_proxy_plugin.navigateEvent →
               is_Some (page_body L now (WriteKey d) userId e)) pre →
  Kind event = segment_proxy_plugin.navigateEvent →
  page_body L now (WriteKey d) userId event = Some jsonBody →
  Forall (λ e, Kind e ≠ segment_proxy_plugin.navigateEvent) post →
  segment_proxy_plugin.HandleRequest L now s info
  = Returns false (set_request s (page_request (request s) jsonBody)).
Proof.
  intros Hloop userId Hevts Hpre Hk Hbody Hpost.
  rewrite (HandleRequest_reaches_the_loop s info d Hloop), Hevts.
  by rewrite (range_Evts_last (WriteKey d) pre post event s jsonBody).
Qed.

Lemma range_Evts_app_no_navigate (writeKey : string) (pre rest : list Event) (s : state) :
  Forall (λ event, Kind event ≠ segment_proxy_plugin.navigateEvent) pre →
  segment_proxy_plugin.range_Evts L now writeKey (pre ++ rest) s
  = segment_proxy_plugin.range_Evts L now writeKey rest s.
Proof.
  induction 1 as [|event pre Hk _ IH]; [done|].
  rewrite <- app_comm_cons. by rewrite range_Evts_skips.
Qed.

(** X4.  When the first navigate event of the bundle does not yield a
    page body (its arguments do not parse, or are an empty list, or the
    body does not serialize), the handler returns from inside the loop:
    the request leaves with the path /v1/page and the method POST but
    otherwise as it came, the bundle still its body, and the events after
    that one are never looked at.  Nothing is logged, unless the arguments
    gave a URL and it is the body that did not serialize: then the one
    line on the marshal failure is. *)
Theorem first_navigate_event_without_url_ends_the_loop (s : state) (info : RequestInfo)
    (d : SegmentData) (pre post : list Event) (event : Event) :
  reaches_the_loop L s info d →
  Evts d = pre ++ event :: post →
  Forall (λ e, Kind e ≠ segment_proxy_plugin.navigateEvent) pre →
  Kind event = segment_proxy_plugin.navigateEvent →
  page_body L now (WriteKey d) (Values_Get (Query (Url (request s))) "UserId") event
  = None →
  segment_proxy_plugin.HandleRequest L now s info
  = Returns false
      (logs_more (retargeted s)
         match json_Unmarshal_strings L (Args event) with
         | Some (_ :: _) => ["Failed to marshal request body: %v"]
         | _ => []
         end).
Proof.
  intros Hloop Hevts Hpre Hk Hbody.
  rewrite (HandleRequest_reaches_the_loop s info d Hloop), Hevts.
  rewrite range_Evts_app_no_navigate by done. unfold page_body in Hbody.
  destruct (json_Unmarshal_strings L (Args event)) as [[|url args]|] eqn:Hargs.
  - rewrite range_Evts_returns_early by auto. by rewrite logs_more_nil.
  - by rewrite (range_Evts_marshal_fails L now (WriteKey d) event post s url args).
  - rewrite range_Evts_returns_early by auto. by rewrite logs_more_nil.
Qed.

End more_segment_proxy.

Lemma navigate_event_retargets_the_request_witness :
  let d := mkSegmentData 0 0 "test-key" [Examples.event 37 "https://example.com"] in
  let s := Examples.start (Examples.NewRequest "/rec/bundle/v2" (Examples.bundle (Evts d))) in
  let s' := final (segment_proxy_plugin.HandleRequest Std.lib Examples.now s Examples.fresh) in
  reaches_the_loop Std.lib s Examples.fresh d
  ∧ Path (Url (request s')) = "/v1/page" ∧ Method (request s') = "POST".
Proof.
  intros d s s'.
  assert (Hloop : reaches_the_loop Std.lib s Examples.fresh d).
  { split; [reflexivity|]. split; [reflexivity|]. exists (Examples.bundle (Evts d)), (Examples.bundle (Evts d)).
    split; [reflexivity|]. split; vm_compute; reflexivity. }
  split; [exact Hloop|].
  apply (navigate_event_retargets_the_request Std.lib Examples.now s Examples.fresh d Hloop).
  apply Exists_cons_hd. reflexivity.
Defined.

Lemma last_navigate_event_decides_witness :
  let pre := [Examples.event 37 "https://example.com"; Examples.event 1 "not-a-navigate-event"] in
  let event := Examples.event 37 "https://example.org" in
  let d := mkSegmentData 0 0 "test-key" (pre ++ [event]) in
  let s := Examples.start (Examples.NewRequest "/rec/bundle/v2" (Examples.bundle (Evts d))) in
  let jsonBody :=
    default [] (page_body Std.lib Examples.now "test-key" "test-user" event) in
  reaches_the_loop Std.lib s Examples.fresh d
  ∧ page_body Std.lib Examples.now "test-key" "test-user" event = Some jsonBody
  ∧ segment_proxy_plugin.HandleRequest Std.lib Examples.now s Examples.fresh
    = Returns false (set_request s (page_request (request s) jsonBody)).
Proof.
  intros pre event d s jsonBody.
  assert (Hloop : reaches_the_loop Std.lib s Examples.fresh d).
  { split; [reflexivity|]. split; [reflexivity|].
    exists (Examples.bundle (Evts d)), (Examples.bundle (Evts d)).
    split; [reflexivity|]. split; vm_compute; reflexivity. }
  assert (Hbody : page_body Std.lib Examples.now "test-key" "test-user" event
                  = Some jsonBody) by (vm_compute; reflexivity).
  split; [exact Hloop|]. split; [exact Hbody|].
  apply (last_navigate_event_decides Std.lib Examples.now s Examples.fresh d pre [] event
           jsonBody Hloop).
  - reflexivity.
  - apply Forall_cons. split.
    + intros _. exists (default [] (page_body Std.lib Examples.now "test-key" "test-user"
                                      (Examples.event 37 "https://example.com"))).
      vm_compute. reflexivity.
    + apply Forall_cons. split; [intros H; discriminate H|apply Forall_nil_2].
  - reflexivity.
  - exact Hbody.
  - apply Forall_nil_2.
Defined.

Lemma first_navigate_event_without_url_ends_the_loop_witness :
  let pre := [Examples.event 1 "not-a-navigate-event"] in
  let event := mkEvent 37 (bytes_of_string (Examples.quote "https://example.com")) 0 in
  let post := [Examples.event 37 "https://example.org"] in
  let d := mkSegmentData 0 0 "test-key" (pre ++ event :: post) in
  let s := Examples.start (Examples.NewRequest "/rec/bundle/v2" (Examples.bundle (Evts d))) in
  reaches_the_loop Std.lib s Examples.fresh d
  ∧ json_Unmarshal_strings Std.lib (Args event) = None
  ∧ page_body Std.lib Examples.now "test-key" "test-user" event = None
  ∧ segment_proxy_plugin.HandleRequest Std.lib Examples.now s Examples.fresh
    = Returns false (logs_more (retargeted s) []).
Proof.
  intros pre event post d s.
  assert (Hloop : reaches_the_loop Std.lib s Examples.fresh d).
  { split; [reflexivity|]. split; [reflexivity|].
    exists (Examples.bundle (Evts d)), (Examples.bundle (Evts d)).
    split; [reflexivity|]. split; vm_compute; reflexivity. }
  assert (Hargs : json_Unmarshal_strings Std.lib (Args event) = None)
    by (vm_compute; reflexivity).
  assert (Hbody : page_body Std.lib Examples.now "test-key" "test-user" event = None)
    by (vm_compute; reflexivity).
  assert (Hpre : Forall (λ e, Kind e ≠ segment_proxy_plugin.navigateEvent) pre).
  { apply Forall_cons. split; [intros H; discriminate H|apply Forall_nil_2]. }
  split; [exact Hloop|]. split; [exact Hargs|]. split; [exact Hbody|].
  rewrite (first_navigate_event_without_url_ends_the_loop Std.lib Examples.now s
             Examples.fresh d pre post event Hloop eq_refl Hpre eq_refl Hbody).
  by rewrite Hargs.
Defined.

(** ** More on the variant of the handler that fans out *)

Section more_fanout.

Import segment_proxy_plugin_fanout.

Context (L : GoLib) (plug : segmentProxyPlugin) (now : Z).

Lemma prefix_spec (s1 s2 : string) :
  String.prefix s1 s2 = true ↔ ∃ post, s2 = s1 +:+ post.
Proof.
  revert s2. induction s1 as [|a s1 IH]; intros s2.
  { split; [by exists s2|by destruct s2]. }
  destruct s2 as [|b s2]; [split; [done|by intros [post ?]]|].
  change (String.prefix (String a s1) (String b s2))
    with (if Ascii.ascii_dec a b then String.prefix s1 s2 else false).
  destruct (Ascii.ascii_dec a b) as [->|Hne].
  - rewrite IH. split; intros [post H]; exists post; [by rewrite H|by injection H].
  - split; [done|]. intros [post H]. injection H as <- _. done.
Qed.

Lemma strings_Contains_spec (s substr : string) :
  strings_Contains s substr = true ↔ contains s substr.
Proof.
  unfold contains. induction s as [|a s IH].
  - change (strings_Contains "" substr) with (String.prefix substr "" || false).
    rewrite orb_false_r, prefix_spec. split.
    + intros [post H]. by exists "", post.
    + intros (pre & post & H). destruct pre; simpl in H; [by exists post|done].
  - change (strings_Contains (String a s) substr)
      with (String.prefix substr (String a s) || strings_Contains s substr).
    rewrite orb_true_iff, prefix_spec, IH. split.
    + intros [[post H]|(pre & post & H)]; [by exists "", post|].
      exists (String a pre), post. simpl. by rewrite H.
    + intros (pre & post & H). destruct pre as [|c pre]; simpl in H.
      * left. by exists post.
      * right. injection H as _ H. by exists pre, post.
Qed.

Lemma page_call_of_proxy_request (r : Request) (jsonBody : bytes) :
  page_call_of r (proxy_request r jsonBody).
Proof.
  unfold page_call_of, proxy_request, Header_Set. simpl.
  split; [done|]. split; [by case_bool_decide|]. split; [by case_bool_decide|].
  split; [by case_bool_decide|]. split; [by case_bool_decide|].
  split; [by rewrite lookup_insert_eq|].
  rewrite copy_headers_empty.
  split. { rewrite lookup_insert_ne by done. by apply map_lookup_filter_None_2; right; intros ? _ ?. }
  split.
  { intros key H1 H2. rewrite lookup_insert_ne by done.
    destruct (Headers r !! key) as [v|] eqn:Hv.
    - by apply map_lookup_filter_Some_2.
    - apply map_lookup_filter_None_2. by left. }
  split; [by intros b|done].
Qed.

Lemma proxy_event_refused (r : Request) (jsonBody : bytes) (s : state) (n : Z) :
  url_accepted L (targetURL r) = false →
  sent (proxy_event L plug r jsonBody s n).1 = sent s.
Proof.
  intros H. unfold proxy_event.
  match goal with |- context [url_accepted L ?u] => change u with (targetURL r) end.
  by rewrite H.
Qed.

Lemma range_Evts_deliveries (writeKey : string) (evts : list Event) (s : state) (n : Z) :
  let out := range_Evts L plug now writeKey
               (Values_Get (Query (Url (request s))) "UserId") evts s n in
  (url_accepted L (targetURL (request s)) = true →
   sent out.1 = sent s ++ deliveries L now (request s) writeKey evts)
  ∧ (url_accepted L (targetURL (request s)) = false → sent out.1 = sent s).
Proof.
  revert s n. induction evts as [|event evts IH]; intros s n.
  { simpl. by rewrite app_nil_r. }
  unfold deliveries. simpl. unfold page_body at 1.
  case_bool_decide as Hk; [|apply IH].
  destruct (json_Unmarshal_strings L (Args event)) as [[|url args]|]; try apply IH.
  destruct (json_Marshal L (segment_proxy_plugin.requestBody writeKey
              (Values_Get (Query (Url (request s))) "UserId") now url))
    as [jsonBody|]; simpl.
  - destruct (proxy_event_spec L plug (request s) jsonBody s n) as (Hr & _ & Hs & Hacc).
    pose proof (proxy_event_refused (request s) jsonBody s n) as Href.
    destruct (proxy_event L plug (request s) jsonBody s n) as [s1 n1].
    simpl in *. specialize (IH s1 n1). simpl in IH. rewrite Hr in IH.
    destruct IH as [IH1 IH2]. split; intros Hurl.
    + rewrite (IH1 Hurl), (Hacc Hurl). by rewrite <- app_assoc.
    + by rewrite (IH2 Hurl), (Href Hurl).
  - apply (IH (logger_Printf s "Failed to marshal request body: %v") n).
Qed.

Lemma range_Evts_page_calls (writeKey userId : string) (evts : list Event)
    (s : state) (n : Z) :
  ∃ extra, sent (range_Evts L plug now writeKey userId evts s n).1 = sent s ++ extra
           ∧ Forall (page_call_of (request s)) extra.
Proof.
  revert s n. induction evts as [|event evts IH]; intros s n; simpl.
  { exists []. by rewrite app_nil_r. }
  case_bool_decide; [|apply IH].
  destruct (json_Unmarshal_strings L (Args event)) as [[|url args]|]; try apply IH.
  destruct (json_Marshal L _) as [jsonBody|].
  - destruct (proxy_event_spec L plug (request s) jsonBody s n) as (Hr & _ & Hs & _).
    destruct (proxy_event L plug (request s) jsonBody s n) as [s1 n1]. simpl in *.
    destruct (IH s1 n1) as (extra & -> & Hextra). rewrite Hr in Hextra.
    destruct Hs as [-> | ->]; [by exists extra|].
    exists (proxy_request (request s) jsonBody :: extra). rewrite <- app_assoc.
    split; [done|]. apply Forall_cons. split; [apply page_call_of_proxy_request|done].
  - apply (IH (logger_Printf s "Failed to marshal request body: %v") n).
Qed.

Lemma handed_on_rewound (s s1 : state) (body : ReadCloser) (b : bytes)
    (extra : list Request) :
  Body (request s) = Some body →
  io_ReadAll body = (b, false) →
  request s1 = with_Body (request s) (Some (NewReader b)) →
  response s1 = response s →
  sent s1 = sent s ++ extra →
  Forall (page_call_of (request s)) extra →
  handed_on s s1 extra.
Proof.
  intros Hb Hall Hr Hw Hs Hextra. unfold handed_on. rewrite Hr, Hw, Hs.
  split; [done|]. split; [by destruct (request s)|]. split; [|done].
  intros _. split; [|by intros b'].
  unfold unread_bytes. simpl. rewrite Hb.
  destruct body as [|b' fails]; simpl in Hall; by simplify_eq.
Qed.

(** the handler of the variant, with everything it leaves behind *)
Lemma fanout_HandleRequest_spec (s : state) (info : RequestInfo) :
  ∃ s' extra,
    HandleRequest L plug now s info = Returns false s' ∧ handed_on s s' extra.
Proof.
  assert (Hnone : ∃ s' extra, Returns false s = Returns false s' ∧ handed_on s s' extra).
  { exists s, []. split; [done|]. unfold handed_on. rewrite app_nil_r.
    split; [done|]. split; [by destruct (request s)|]. by repeat split. }
  unfold HandleRequest. destruct (Serviced info); [done|].
  destruct (strings_Contains _ _); simpl; [|done].
  destruct (Body (request s)) as [body|] eqn:Hb; [|done].
  destruct (io_ReadAll body) as [b [|]] eqn:Hall.
  { eexists _, []. split; [done|]. unfold handed_on. simpl. rewrite app_nil_r.
    split; [done|]. split; [by destruct (request s)|]. split; [|done].
    intros Hread. destruct body as [|b' fails]; [done|]. simpl in Hall.
    injection Hall as -> ->. by destruct (Hread b). }
  destruct (contentBytes L _ b) as [format|content].
  { eexists _, []. split; [done|].
    apply (handed_on_rewound s _ body b); try done. simpl. by rewrite app_nil_r. }
  destruct (json_Unmarshal_SegmentData L content) as [d|].
  2: { eexists _, []. split; [done|].
       apply (handed_on_rewound s _ body b); try done. simpl. by rewrite app_nil_r. }
  match goal with
  | |- context [range_Evts L plug now ?k ?u ?evts ?s1 0] =>
      destruct (range_Evts_keeps_request L plug now k u evts s1 0) as (Hr & Hw & _);
      destruct (range_Evts_page_calls k u evts s1 0) as (extra & Hs & Hextra);
      destruct (range_Evts L plug now k u evts s1 0) as [s2 n2]
  end.
  simpl in *.
  destruct (0 <? n2); eexists _, extra; (split; [done|]);
    by apply (handed_on_rewound s _ body b).
Qed.

Lemma fanout_HandleRequest_reaches_the_loop (s : state) (info : RequestInfo)
    (d : SegmentData) :
  fanout_reaches_the_loop L s info d →
  let out := range_Evts L plug now (WriteKey d)
               (Values_Get (Query (Url (request s))) "UserId") (Evts d) s 0 in
  HandleRequest L plug now s info
  = Returns false
      (if 0 <? out.2 then logger_Printf out.1 "Processed and proxied %d events from %s"
       else out.1).
Proof.
  intros (Hs & Hp & b & content & Hb & Hc & Hd). unfold HandleRequest.
  rewrite Hs. apply strings_Contains_spec in Hp. rewrite Hp, Hb. simpl.
  rewrite (rewound _ _ Hb), set_request_same, Hc, Hd.
  destruct (range_Evts L plug now _ _ _ s 0) as [s1 n1]. simpl.
  by destruct (0 <? n1).
Qed.

(** X5.  The variant that fans out never services a request and never
    touches the one in flight: it returns [false], writes nothing to the
    response writer, and hands on the request with the method, URL,
    headers, ContentLength and TLS state it came with; only the stream
    behind [Body] is replaced, and it yields the same bytes whenever the
    body could be read.  This holds whatever the bundle holds and however
    the client answers. *)
Theorem fanout_hands_on_the_request (s : state) (info : RequestInfo) :
  ∃ s', HandleRequest L plug now s info = Returns false s'
        ∧ response s' = response s
        ∧ with_Body (request s') (Body (request s)) = request s
        ∧ (readable (request s) →
           unread_bytes (request s') = unread_bytes (request s) ∧ readable (request s')).
Proof.
  destruct (fanout_HandleRequest_spec s info) as (s' & extra & Hret & Hw & Hr & Hb & _).
  by exists s'.
Qed.

(** X6.  Every request the variant sends while handling a request is a
    page call made from it: a POST to the path /v1/page on the host and
    with the query of the request in flight, with its scheme (when the
    URL has none, https for a TLS connection and http otherwise), with
    Content-Type application/json, without a Content-Length header, with
    every other header of the request in flight, and with a ContentLength
    that is the length of its body. *)
Theorem fanout_sends_page_calls (s : state) (info : RequestInfo) :
  ∃ s' extra, HandleRequest L plug now s info = Returns false s'
              ∧ sent s' = sent s ++ extra
              ∧ Forall (page_call_of (request s)) extra.
Proof.
  destruct (fanout_HandleRequest_spec s info)
    as (s' & extra & Hret & _ & _ & _ & Hs & Hextra).
  by exists s', extra.
Qed.

(** X7.  When the variant gets as far as the events of the bundle and
    [http.NewRequest] accepts the target URL, it sends exactly one request
    for each navigate event whose arguments give a URL and whose body
    serializes, in the order of the events, each carrying the body built
    for its event; a client that fails on one request does not keep the
    later ones from being sent.  When the target URL is refused, nothing
    is sent. *)
Theorem fanout_delivers_every_navigate_event (s : state) (info : RequestInfo)
    (d : SegmentData) :
  fanout_reaches_the_loop L s info d →
  ∃ s', HandleRequest L plug now s info = Returns false s'
        ∧ (url_accepted L (targetURL (request s)) = true →
           sent s' = sent s ++ deliveries L now (request s) (WriteKey d) (Evts d))
        ∧ (url_accepted L (targetURL (request s)) = false → sent s' = sent s).
Proof.
  intros Hloop. rewrite (fanout_HandleRequest_reaches_the_loop s info d Hloop).
  destruct (range_Evts_deliveries (WriteKey d) (Evts d) s 0) as [Hacc Href].
  destruct (range_Evts L plug now _ _ _ s 0) as [s1 n1]. simpl in *.
  eexists. split; [done|]. by destruct (0 <? n1).
Qed.

(** X8.  A request whose path does not have /rec/bundle/v2 somewhere
    inside is returned by the variant as it came, its body unread. *)
Theorem fanout_ignores_other_paths (s : state) (info : RequestInfo) :
  ¬ contains (Path (Url (request s))) "/rec/bundle/v2" →
  HandleRequest L plug now s info = Returns false s.
Proof.
  intros Hp. unfold HandleRequest. destruct (Serviced info); [done|].
  destruct (strings_Contains _ _) eqn:Hc; [|done].
  by apply strings_Contains_spec in Hc.
Qed.

End more_fanout.

Lemma fanout_delivers_every_navigate_event_witness :
  let d := mkSegmentData 0 0 "test-key"
             [Examples.event 37 "https://example.com";
              Examples.event 1 "not-a-navigate-event";
              Examples.event 37 "https://example.org"] in
  let s := Examples.start
             (Examples.NewRequest "/api/v1/rec/bundle/v2/data" (Examples.bundle (Evts d))) in
  let failing := segment_proxy_plugin_fanout.mkPlugin (mkClient (λ _, None)) in
  fanout_reaches_the_loop Std.lib s Examples.fresh d
  ∧ ∃ s', segment_proxy_plugin_fanout.HandleRequest Std.lib failing Examples.now s
            Examples.fresh
          = Returns false s'
          ∧ sent s' = deliveries Std.lib Examples.now (request s) "test-key" (Evts d)
          ∧ length (sent s') = 2%nat.
Proof.
  intros d s failing.
  assert (Hloop : fanout_reaches_the_loop Std.lib s Examples.fresh d).
  { split; [reflexivity|]. split; [by exists "/api/v1", "/data"|].
    exists (Examples.bundle (Evts d)), (Examples.bundle (Evts d)).
    split; [reflexivity|]. split; vm_compute; reflexivity. }
  split; [exact Hloop|].
  destruct (fanout_delivers_every_navigate_event Std.lib failing Examples.now s
              Examples.fresh d Hloop) as (s' & Hret & Hacc & _).
  exists s'. split; [exact Hret|]. split; [exact (Hacc eq_refl)|].
  rewrite (Hacc eq_refl). vm_compute. reflexivity.
Defined.

Lemma fanout_ignores_other_paths_witness :
  let s := Examples.start
             (Examples.NewRequest "/rec/bundle/v1"
                (Examples.bundle [Examples.event 37 "https://example.com"])) in
  ¬ contains (Path (Url (request s))) "/rec/bundle/v2"
  ∧ segment_proxy_plugin_fanout.HandleRequest Std.lib
      (segment_proxy_plugin_fanout.mkPlugin Examples.server) Examples.now s Examples.fresh
    = Returns false s.
Proof.
  intros s.
  assert (Hp : ¬ contains (Path (Url (request s))) "/rec/bundle/v2").
  { intros H. apply strings_Contains_spec in H. vm_compute in H. discriminate H. }
  split; [exact Hp|].
  apply (fanout_ignores_other_paths Std.lib
           (segment_proxy_plugin_fanout.mkPlugin Examples.server) Examples.now s
           Examples.fresh Hp).
Defined.

(** ** More on the content enricher *)

Section more_enricher.

Import content_enricher_plugin.

Context (L : GoLib) (RelayRelease : string) (plug : contentEnricherPlugin).

Lemma foldl_Header_Set_lookup (l : list (string * string)) (h : Header) (name : string) :
  (∀ kv, kv ∈ l → textproto.CanonicalMIMEHeaderKey kv.1 ≠ name) →
  foldl (λ h kv, Header_Set h kv.1 kv.2) h l !! name = h !! name.
Proof.
  revert h. induction l as [|kv l IH]; intros h Hl; [done|]. simpl.
  rewrite IH by (intros kv' Hin; apply Hl; by right).
  unfold Header_Set. apply lookup_insert_ne, Hl. by left.
Qed.

Lemma foldl_Header_Set_sets (l : list (string * string)) (h : Header) (key value : string) :
  (key, value) ∈ l →
  (∀ kv, kv ∈ l →
     textproto.CanonicalMIMEHeaderKey kv.1 = textproto.CanonicalMIMEHeaderKey key →
     kv = (key, value)) →
  foldl (λ h kv, Header_Set h kv.1 kv.2) h l !! textproto.CanonicalMIMEHeaderKey key
  = Some [value].
Proof.
  revert h. induction l as [|kv l IH]; intros h Hin Hl; [by apply elem_of_nil in Hin|].
  simpl. destruct (decide ((key, value) ∈ l)) as [Hin'|Hout].
  { apply IH; [done|]. intros kv' Hkv'. apply Hl. by right. }
  apply elem_of_cons in Hin as [<-|Hin]; [|done].
  rewrite foldl_Header_Set_lookup.
  - unfold Header_Set. simpl. by rewrite lookup_insert_eq.
  - intros kv' Hkv' Heq. apply Hout. rewrite <- (Hl kv'); [done|by right|done].
Qed.

Lemma enriched_headers_sets (h : Header) (key value : string) :
  headerEnrichments plug !! key = Some value →
  configured_once plug key →
  enriched_headers plug h !! textproto.CanonicalMIMEHeaderKey key = Some [value].
Proof.
  intros Hkey Honce. apply foldl_Header_Set_sets.
  - by apply elem_of_map_to_list.
  - intros [k v] Hin Heq. apply elem_of_map_to_list in Hin. simpl in *.
    assert (k = key) as -> by (apply Honce; [by eexists|done]).
    congruence.
Qed.

Lemma enriched_headers_lookup (h : Header) (name : string) :
  not_configured plug name → enriched_headers plug h !! name = h !! name.
Proof.
  intros Hnot. apply foldl_Header_Set_lookup. intros [k v] Hin.
  apply elem_of_map_to_list in Hin. apply Hnot. by eexists.
Qed.

(** [HandleRequest] on a request that is not yet serviced, by the state in
    which [enrichBodyContent] is called *)
Lemma HandleRequest_by_body (s : state) (info : RequestInfo) :
  Serviced info = false →
  ∃ sh, request sh = with_enriched_headers plug (request s)
        ∧ response sh = response s
        ∧ sent sh = sent s
        ∧ HandleRequest L RelayRelease plug s info
          = match enrichBodyContent L plug sh with
            | Returns false s' => Returns false (stamped RelayRelease plug s')
            | o => o
            end.
Proof.
  intros Hs. destruct (HandleRequest_after_headers L RelayRelease plug s info Hs)
    as [lines ->].
  by exists (logs_more
               (set_request s
                  (with_Headers (request s) (enriched_headers plug (Headers (request s)))))
               lines).
Qed.


(** what [enrichBodyContent] never touches: method, URL and TLS state of
    the request, the headers other than Content-Length, and the requests
    sent *)
Lemma enrichBodyContent_frame (s : state) :
  let s' := final (enrichBodyContent L plug s) in
  Method (request s') = Method (request s)
  ∧ Url (request s') = Url (request s)
  ∧ TLS (request s') = TLS (request s)
  ∧ sent s' = sent s
  ∧ ∀ name, name ≠ "Content-Length" →
            Headers (request s') !! name = Headers (request s) !! name.
Proof.
  unfold enrichBodyContent.
  case_bool_decide as HE; [done|].
  case_bool_decide as Hct; simpl; [|done].
  destruct (Body (request s)) as [[|b fails]|] eqn:Hb; simpl; try done.
  destruct fails; simpl; [done|].
  case_bool_decide as Hlen; simpl; [done|].
  destruct (json_Unmarshal_map L b) as [[|m]|] eqn:Hparse; simpl; try done.
  - destruct (map_to_list (bodyEnrichments plug)) as [|[k v] l] eqn:Hl; [|done].
    by apply map_to_list_empty_iff, map_size_empty_iff in Hl.
  - destruct (range_bodyEnrichments_configured plug m
                (set_request s (with_Body (request s) (Some (NewReader b)))))
      as [lines ->].
    simpl. destruct (json_Marshal L _); simpl; [|done].
    repeat split; try done. intros name Hname. unfold Header_Set.
    by rewrite lookup_insert_ne.
Qed.

Lemma version_header_canonical :
  textproto.CanonicalMIMEHeaderKey PluginVersionHeaderName = PluginVersionHeaderName.
Proof. by vm_compute. Qed.

Lemma stamped_frame (s : state) :
  let s' := stamped RelayRelease plug s in
  Method (request s') = Method (request s)
  ∧ Url (request s') = Url (request s)
  ∧ TLS (request s') = TLS (request s)
  ∧ sent s' = sent s
  ∧ ∀ name, name ≠ PluginVersionHeaderName →
            Headers (request s') !! name = Headers (request s) !! name.
Proof.
  unfold stamped. destruct (_ || _); simpl; [|done].
  repeat split; try done. intros name Hname. unfold Header_Add.
  by rewrite lookup_insert_ne.
Qed.

(** adding the version header leaves the first value of every header in
    place *)
Lemma stamped_Header_Get (s : state) (key value : string) (values : list string) :
  Headers (request s) !! textproto.CanonicalMIMEHeaderKey key = Some (value :: values) →
  Header_Get (Headers (request (stamped RelayRelease plug s))) key = value.
Proof.
  intros Hkey. unfold stamped, Header_Get.
  destruct (_ || _); simpl; [|by rewrite Hkey].
  unfold Header_Add.
  destruct (decide (textproto.CanonicalMIMEHeaderKey PluginVersionHeaderName
                    = textproto.CanonicalMIMEHeaderKey key)) as [Heq|Hne].
  - by rewrite Heq, lookup_insert_eq, Hkey.
  - by rewrite lookup_insert_ne, Hkey.
Qed.

(** [HandleRequest] on a request that is not yet serviced ends as
    [enrichBodyContent] did, with the version header added when that
    returned [false]; and what the state [enrichBodyContent] ended in
    has kept of the request *)
Lemma HandleRequest_final (s : state) (info : RequestInfo) :
  Serviced info = false →
  ∃ o, HandleRequest L RelayRelease plug s info
       = match o with
         | Returns false s1 => Returns false (stamped RelayRelease plug s1)
         | _ => o
         end
       ∧ Method (request (final o)) = Method (request s)
       ∧ Url (request (final o)) = Url (request s)
       ∧ TLS (request (final o)) = TLS (request s)
       ∧ sent (final o) = sent s
       ∧ ∀ name, name ≠ "Content-Length" →
                 Headers (request (final o)) !! name
                 = enriched_headers plug (Headers (request s)) !! name.
Proof.
  intros Hs. destruct (HandleRequest_by_body s info Hs) as (sh & Hr & _ & Hsent & ->).
  destruct (enrichBodyContent_frame sh) as (Hm & Hu & Ht & Hsn & Hh).
  rewrite Hr in Hm, Hu, Ht, Hh. rewrite Hsent in Hsn. simpl in *.
  exists (enrichBodyContent L plug sh).
  split; [by destruct (enrichBodyContent L plug sh) as [[|] ?|?]|].
  split; [exact Hm|]. split; [exact Hu|]. split; [exact Ht|]. split; [exact Hsn|exact Hh].
Qed.

(** X9.  On a request that is not yet serviced the handler sets every
    configured header to its configured value, replacing the values the
    request came with: afterwards [Header.Get] of the configured name
    gives the configured value.  This holds when no other configured name
    has the same canonical form, and for every header but Content-Length,
    which the body enrichment sets again. *)
Theorem configured_headers_are_set (s : state) (info : RequestInfo) (key value : string) :
  Serviced info = false →
  headerEnrichments plug !! key = Some value →
  configured_once plug key →
  textproto.CanonicalMIMEHeaderKey key ≠ "Content-Length" →
  Header_Get (Headers (request (final (HandleRequest L RelayRelease plug s info)))) key
  = value.
Proof.
  intros Hs Hkey Honce Hne.
  destruct (HandleRequest_final s info Hs) as (o & -> & _ & _ & _ & _ & Hh).
  specialize (Hh _ Hne). rewrite (enriched_headers_sets _ key value Hkey Honce) in Hh.
  destruct o as [[|] s1|s1]; simpl in *.
  - unfold Header_Get. by rewrite Hh.
  - by apply (stamped_Header_Get s1 key value []).
  - unfold Header_Get. by rewrite Hh.
Qed.



(** X12.  Every plugin the factory loads marks the requests it lets
    through: when its handler returns [false] on a request that was not
    yet serviced, the header X-Relay-Content-Enricher-Version has the
    values it came with followed by the release of the relay (the
    configured headers not naming that header themselves). *)
Theorem loaded_plugin_stamps_its_version (c : config.Section) (s s' : state)
    (info : RequestInfo) :
  New c = loaded plug →
  Serviced info = false →
  not_configured plug PluginVersionHeaderName →
  HandleRequest L RelayRelease plug s info = Returns false s' →
  Headers (request s') !! PluginVersionHeaderName
  = Some (default [] (Headers (request s) !! PluginVersionHeaderName) ++ [RelayRelease]).
Proof.
  intros Hnew Hs Hnot Hret.
  assert (Hany : bool_decide (0 < size (headerEnrichments plug))%nat
                 || bool_decide (0 < size (bodyEnrichments plug))%nat = true).
  { revert Hnew. unfold New.
    destruct (config.ParseOptional (config.body c) _ _) as [p1|]; [|done].
    destruct (config.ParseOptional (config.headers c) _ _) as [p2|]; [|done].
    destruct (bool_decide_reflect (size (bodyEnrichments p2) = 0%nat)) as [Eb|Eb];
      destruct (bool_decide_reflect (size (headerEnrichments p2) = 0%nat)) as [Eh|Eh];
      simpl; try done; intros [= Hp]; rewrite <- Hp; apply orb_true_iff;
      [left|right|left]; apply bool_decide_eq_true_2; lia. }
  destruct (HandleRequest_final s info Hs) as (o & Ho & _ & _ & _ & _ & Hh).
  specialize (Hh PluginVersionHeaderName). rewrite enriched_headers_lookup in Hh by done.
  rewrite Ho in Hret. destruct o as [[|] s1|s1]; try done.
  injection Hret as <-. simpl in Hh. unfold stamped. rewrite Hany. simpl.
  unfold Header_Add. rewrite version_header_canonical, lookup_insert_eq. by rewrite Hh.
Qed.


(** X14.  The handler leaves the method, the URL and the TLS state of the
    request as they were and sends no request of its own; and it leaves
    every header as it was whose canonical name is not that of a
    configured header, of Content-Length or of the version header. *)
Theorem enricher_keeps_the_rest_of_the_request (s : state) (info : RequestInfo) :
  let s' := final (HandleRequest L RelayRelease plug s info) in
  Method (request s') = Method (request s)
  ∧ Url (request s') = Url (request s)
  ∧ TLS (request s') = TLS (request s)
  ∧ sent s' = sent s
  ∧ ∀ name, name ≠ "Content-Length" → name ≠ PluginVersionHeaderName →
            not_configured plug name →
            Headers (request s') !! name = Headers (request s) !! name.
Proof.
  destruct (Serviced info) eqn:Hs.
  { unfold HandleRequest. by rewrite Hs. }
  destruct (HandleRequest_final s info Hs) as (o & -> & Hm & Hu & Ht & Hsn & Hh).
  assert (Hh' : ∀ name, name ≠ "Content-Length" → not_configured plug name →
                        Headers (request (final o)) !! name = Headers (request s) !! name).
  { intros name Hname Hnot. by rewrite Hh, enriched_headers_lookup. }
  destruct o as [[|] s1|s1]; unfold final in *.
  - split; [done|]. split; [done|]. split; [done|]. split; [done|].
    intros name Hname _ Hnot. by apply Hh'.
  - destruct (stamped_frame s1) as (-> & -> & -> & -> & Hstamp).
    split; [done|]. split; [done|]. split; [done|]. split; [done|].
    intros name Hname Hv Hnot. rewrite Hstamp by done. by apply Hh'.
  - split; [done|]. split; [done|]. split; [done|]. split; [done|].
    intros name Hname _ Hnot. by apply Hh'.
Qed.


End more_enricher.

Lemma configured_headers_are_set_witness :
  let plug := content_enricher_plugin.mkPlugin ∅ {[ "newhead" := "newvalue" ]} in
  let s := Examples.start
             (Examples.post "/" [("Newhead", "old value")] Examples.original_content) in
  Header_Get (Headers (request s)) "newhead" = "old value"
  ∧ Header_Get
      (Headers (request (final (content_enricher_plugin.HandleRequest Std.lib "v0.3.2"
                                  plug s Examples.fresh)))) "newhead"
    = "newvalue".
Proof.
  intros plug s. split; [vm_compute; reflexivity|].
  apply (configured_headers_are_set Std.lib "v0.3.2" plug s Examples.fresh
           "newhead" "newvalue").
  - reflexivity.
  - vm_compute. reflexivity.
  - intros key' [v Hv] _.
    change (({[ "newhead" := "newvalue" ]} : gmap string string) !! key' = Some v) in Hv.
    by apply lookup_singleton_Some in Hv as [<- _].
  - vm_compute. discriminate.
Defined.


Lemma loaded_plugin_stamps_its_version_witness :
  let c := config.mkSection (config.Present {[ "new-body-key" := Str "enrich payload" ]})
             config.Absent in
  let s := Examples.start
             (Examples.post "/"
                [("Content-Type", "application/json");
                 ("X-Relay-Content-Enricher-Version", "v0.3.1")]
                Examples.original_content) in
  let s' := final (content_enricher_plugin.HandleRequest Std.lib "v0.3.2"
                     Examples.enricher s Examples.fresh) in
  content_enricher_plugin.New c = content_enricher_plugin.loaded Examples.enricher
  ∧ content_enricher_plugin.HandleRequest Std.lib "v0.3.2" Examples.enricher s
      Examples.fresh
    = Returns false s'
  ∧ Headers (request s') !! content_enricher_plugin.PluginVersionHeaderName
    = Some ["v0.3.1"; "v0.3.2"].
Proof.
  intros c s s'.
  assert (Hnew : content_enricher_plugin.New c
                 = content_enricher_plugin.loaded Examples.enricher)
    by (vm_compute; reflexivity).
  assert (Hret : content_enricher_plugin.HandleRequest Std.lib "v0.3.2"
                   Examples.enricher s Examples.fresh
                 = Returns false s') by (vm_compute; reflexivity).
  split; [exact Hnew|]. split; [exact Hret|].
  rewrite (loaded_plugin_stamps_its_version Std.lib "v0.3.2" Examples.enricher c s s'
             Examples.fresh Hnew eq_refl).
  - vm_compute. reflexivity.
  - intros key [v Hv]. change ((∅ : gmap string string) !! key = Some v) in Hv.
    by rewrite lookup_empty in Hv.
  - exact Hret.
Defined.



(** * The claims *)

Section segment_proxy_claims.

Import Examples.

(** C1, the claim as stated: the request reaches the forwarder unmodified
    (same path, method, body bytes and Content-Length) and a navigate
    event is delivered by a request of its own.  On the request of the
    test case "navigate event should be transformed",
    segment_proxy_plugin.go returns [false], and it has rewritten the
    request in flight, as that test expects: the path is /v1/page, the
    method POST, the body and its length are those of the page call, and
    no request was sent. *)
Theorem navigate_event_rewrites_the_request_in_flight :
  let r := NewRequest "/rec/bundle/v2" (bundle [event 37 "https://example.com"]) in
  ∃ s' page,
    segment_proxy_plugin.HandleRequest Std.lib now (start r) fresh = Returns false s'
    ∧ json_Marshal Std.lib
        (segment_proxy_plugin.requestBody "test-key" "test-user" now "https://example.com")
      = Some page
    ∧ request s' = page_request r page
    ∧ Path (Url (request s')) ≠ Path (Url r)
    ∧ Method (request s') ≠ Method r
    ∧ unread_bytes (request s') ≠ unread_bytes r
    ∧ ContentLength (request s') ≠ ContentLength r
    ∧ sent s' = [].
Proof. eexists _, _. split; [by vm_compute|]. by vm_compute. Qed.

(** C1, amended.  The handler of segment_proxy_plugin.go has no client:
    it delivers a navigate event by rewriting the request in flight.  For
    every request it returns [false], writes nothing to the response
    writer and sends no request of its own.  A request with another path,
    and a request whose bundle holds no navigate event, reaches the
    forwarder as it came.  When the navigate events of the bundle each
    give a URL and a body that serializes, the request that reaches the
    forwarder is the page call of the last of them: the request in flight
    with the path /v1/page, the method POST, the body built for that
    event, and [ContentLength] and the Content-Length header set to its
    length. *)
Theorem navigate_event_is_delivered_in_place (L : GoLib) (clock : Z)
    (s : state) (info : RequestInfo) :
  let userId := Values_Get (Query (Url (request s))) "UserId" in
  (∃ s', segment_proxy_plugin.HandleRequest L clock s info = Returns false s'
         ∧ response s' = response s ∧ sent s' = sent s)
  ∧ (Path (Url (request s)) ≠ "/rec/bundle/v2" →
     segment_proxy_plugin.HandleRequest L clock s info = Returns false s)
  ∧ ∀ d, reaches_the_loop L s info d →
         (Forall (λ e, Kind e ≠ segment_proxy_plugin.navigateEvent) (Evts d) →
          segment_proxy_plugin.HandleRequest L clock s info = Returns false s)
         ∧ ∀ (pre post : list Event) (last : Event) (jsonBody : bytes),
             Evts d = pre ++ last :: post →
             Forall (λ e, Kind e = segment_proxy_plugin.navigateEvent →
                          is_Some (page_body L clock (WriteKey d) userId e)) pre →
             Kind last = segment_proxy_plugin.navigateEvent →
             page_body L clock (WriteKey d) userId last = Some jsonBody →
             Forall (λ e, Kind e ≠ segment_proxy_plugin.navigateEvent) post →
             segment_proxy_plugin.HandleRequest L clock s info
             = Returns false (set_request s (page_request (request s) jsonBody)).
Proof.
  intros userId. split; [apply HandleRequest_returns_false|].
  split; [apply HandleRequest_other_path|].
  intros d Hloop. rewrite (HandleRequest_reaches_the_loop L clock s info d Hloop). split.
  - intros Hnone. by rewrite range_Evts_no_navigate.
  - intros pre post last jsonBody Hevts Hpre Hk Hbody Hpost. rewrite Hevts.
    by rewrite (range_Evts_last L clock (WriteKey d) pre post last s jsonBody).
Qed.

Lemma navigate_event_is_delivered_in_place_witness :
  let navigate := Examples.event 37 "https://example.com" in
  let other := Examples.event 1 "other-event" in
  let d := mkSegmentData 0 0 "test-key" [navigate] in
  let d' := mkSegmentData 0 0 "test-key" [other] in
  let s := Examples.start (Examples.NewRequest "/rec/bundle/v2" (Examples.bundle (Evts d))) in
  let s' := Examples.start
              (Examples.NewRequest "/rec/bundle/v2" (Examples.bundle (Evts d'))) in
  let jsonBody :=
    default [] (page_body Std.lib Examples.now "test-key" "test-user" navigate) in
  reaches_the_loop Std.lib s Examples.fresh d
  ∧ reaches_the_loop Std.lib s' Examples.fresh d'
  ∧ page_body Std.lib Examples.now "test-key" "test-user" navigate = Some jsonBody
  ∧ segment_proxy_plugin.HandleRequest Std.lib Examples.now s Examples.fresh
    = Returns false (set_request s (page_request (request s) jsonBody))
  ∧ segment_proxy_plugin.HandleRequest Std.lib Examples.now s' Examples.fresh
    = Returns false s'.
Proof.
  intros navigate other d d' s s' jsonBody.
  assert (Hloop : reaches_the_loop Std.lib s Examples.fresh d).
  { split; [reflexivity|]. split; [reflexivity|].
    exists (Examples.bundle (Evts d)), (Examples.bundle (Evts d)).
    split; [reflexivity|]. split; vm_compute; reflexivity. }
  assert (Hloop' : reaches_the_loop Std.lib s' Examples.fresh d').
  { split; [reflexivity|]. split; [reflexivity|].
    exists (Examples.bundle (Evts d')), (Examples.bundle (Evts d')).
    split; [reflexivity|]. split; vm_compute; reflexivity. }
  assert (Hbody : page_body Std.lib Examples.now "test-key" "test-user" navigate
                  = Some jsonBody) by (vm_compute; reflexivity).
  split; [exact Hloop|]. split; [exact Hloop'|]. split; [exact Hbody|]. split.
  - destruct (navigate_event_is_delivered_in_place Std.lib Examples.now s Examples.fresh)
      as (_ & _ & Hd).
    destruct (Hd d Hloop) as [_ Hlast].
    apply (Hlast [] [] navigate jsonBody);
      [reflexivity|apply Forall_nil_2|reflexivity|exact Hbody|apply Forall_nil_2].
  - destruct (navigate_event_is_delivered_in_place Std.lib Examples.now s' Examples.fresh)
      as (_ & _ & Hd).
    destruct (Hd d' Hloop') as [Hnone _].
    apply Hnone. apply Forall_cons. split; [intros H; discriminate H|apply Forall_nil_2].
Defined.

(** C2.  The claim: a request is processed whenever its path contains
    /rec/bundle/v2, nested paths included.  The path of the test case
    "path containing rec/bundle/v2" contains it, and
    segment_proxy_plugin.go returns at once, the body unread and the
    request untouched, although the same body under the exact path is
    acted on. *)
Theorem nested_bundle_path_is_not_processed :
  let body := bundle [event 37 "https://example.com"] in
  let nested := NewRequest "/api/v1/rec/bundle/v2/data" body in
  let exact := NewRequest "/rec/bundle/v2" body in
  segment_proxy_plugin_fanout.strings_Contains (Path (Url nested)) "/rec/bundle/v2" = true
  ∧ segment_proxy_plugin.HandleRequest Std.lib now (start nested) fresh
    = Returns false (start nested)
  ∧ segment_proxy_plugin.HandleRequest Std.lib now (start exact) fresh
    ≠ Returns false (start exact).
Proof. by vm_compute. Qed.

End segment_proxy_claims.

(** C3.  The claim: a body sent with Content-Encoding gzip is decoded,
    enriched and encoded again.  The same test with the gzip encoding: the
    body is a gzip member holding the JSON text, and
    content-enricher-plugin.go hands the compressed bytes to
    [json.Unmarshal], logs the parse error and returns with the body as it
    came; what the upstream decodes is the original text, without the
    configured field. *)
Theorem gzip_body_is_not_enriched :
  let gz := Std.gzip_stored Examples.original_content in
  let s := Examples.start
             (Examples.post "/"
                [("Content-Type", "application/json"); ("Content-Encoding", "gzip")] gz) in
  gzip_decode Std.lib gz = gzip_content Examples.original_content
  ∧ json_Unmarshal_map Std.lib gz = None
  ∧ ∃ s', content_enricher_plugin.HandleRequest Std.lib "v0.3.2" Examples.enricher s
            Examples.fresh
          = Returns false s'
          ∧ unread_bytes (request s') = gz
          ∧ gzip_decode Std.lib (unread_bytes (request s'))
            = gzip_content Examples.original_content
          ∧ Header_Get (Headers (request s')) "Content-Encoding" = "gzip"
          ∧ logged s' = ["Error parsing JSON body, cannot enrich: %s. Body: %s"].
Proof.
  split; [by vm_compute|]. split; [by vm_compute|].
  eexists. split; [by vm_compute|]. by vm_compute.
Qed.

Section segment_proxy_events.

Import Examples.


(** C5.  The claim: an event whose Args fail to parse is skipped and the
    events after it are still processed.  Here the first navigate event
    carries a string where the list should be, and a well-formed navigate
    event follows: segment_proxy_plugin.go returns from inside the loop,
    so the second event is never looked at; the request leaves with the
    new path and method and the body of the bundle.  The variant that
    fans out delivers the second event. *)
Theorem malformed_arguments_end_the_loop :
  let malformed := mkEvent 37 (bytes_of_string (quote "https://example.com")) 0 in
  let body := bundle [malformed; event 37 "https://example.org"] in
  let r := NewRequest "/rec/bundle/v2" body in
  ∃ s' s'' page2,
    json_Unmarshal_strings Std.lib (Args malformed) = None
    ∧ json_Marshal Std.lib
        (segment_proxy_plugin.requestBody "test-key" "test-user" now "https://example.org")
      = Some page2
    ∧ segment_proxy_plugin.HandleRequest Std.lib now (start r) fresh = Returns false s'
    ∧ s' = retargeted (start r)
    ∧ unread_bytes (request s') = body
    ∧ sent s' = []
    ∧ segment_proxy_plugin_fanout.HandleRequest Std.lib
        (segment_proxy_plugin_fanout.mkPlugin server) now (start r) fresh
      = Returns false s''
    ∧ sent s'' = [proxy_request r page2].
Proof. eexists _, _, _. split; [by vm_compute|]. by vm_compute. Qed.

End segment_proxy_events.

(** C6.  [enrichBodyContent] replaces the bytes of the body only by
    enriching it, which it does only for a request with Content-Type
    application/json whose body is not empty and parses as a JSON object;
    the object it writes has the body's own value for every key the body
    had and the configured value for a configured key it lacked.  A second
    application to the enriched body, read back as the object that was
    written, leaves the bytes of the body as they are; and the handler
    leaves any body that already has every configured field as it came, or
    as the serialization of the same object. *)
Theorem enricher_adds_absent_fields_only (L : GoLib) (RelayRelease : string)
    (plug : content_enricher_plugin.contentEnricherPlugin) (s : state) :
  let once := content_enricher_plugin.enrichBodyContent L plug s in
  let twice := content_enricher_plugin.enrichBodyContent L plug (final once) in
  (unread_bytes (request (final once)) ≠ unread_bytes (request s) →
     content_enricher_plugin.bodyEnrichments plug ≠ ∅
     ∧ ∃ m, body_enriched L plug s once m)
  ∧ (∀ (m : gmap string value) (key : string),
       (m ∪ content_enricher_plugin.bodyEnrichments plug) !! key
       = match m !! key with
         | Some v => Some v
         | None => content_enricher_plugin.bodyEnrichments plug !! key
         end)
  ∧ (∀ m : gmap string value,
       body_enriched L plug s once m →
       (∀ m', json_Unmarshal_map L (unread_bytes (request (final once)))
              = Some (MakeMap m') →
              m' = m ∪ content_enricher_plugin.bodyEnrichments plug) →
       unread_bytes (request (final twice)) = unread_bytes (request (final once)))
  ∧ (∀ (info : RequestInfo) (b : bytes) (m : gmap string value),
       Body (request s) = Some (Reader b false) →
       json_Unmarshal_map L b = Some (MakeMap m) →
       (∀ key, is_Some (content_enricher_plugin.bodyEnrichments plug !! key) →
               is_Some (m !! key)) →
       let after :=
         unread_bytes
           (request (final (content_enricher_plugin.HandleRequest L RelayRelease plug s
                              info))) in
       after = b ∨ json_Marshal L (Map m) = Some after).
Proof.
  intros once twice. split; [|split; [|split]].
  - apply enrichBodyContent_changes_only_by_enriching.
  - apply enriched_lookup.
  - intros m Hfirst Hback.
    destruct (decide (unread_bytes (request (final twice))
                      = unread_bytes (request (final once)))) as [|Hchg]; [done|].
    apply enrichBodyContent_changes_only_by_enriching in Hchg as [_ [m' Hsecond]].
    destruct Hfirst as (b1 & e1 & l1 & _ & _ & _ & _ & Hw1 & Ho1).
    destruct Hsecond as (b2 & e2 & l2 & _ & Hb2 & _ & Hp2 & Hw2 & Ho2).
    assert (Hbytes : unread_bytes (request (final once)) = b2).
    { unfold unread_bytes. by rewrite Hb2. }
    rewrite Hbytes in Hback. rewrite (Hback m' Hp2) in Hw2.
    rewrite already_enriched in Hw2 by apply enriched_has_configured_keys.
    fold twice in Ho2. rewrite Ho2. simpl. rewrite Ho1. simpl.
    unfold unread_bytes. simpl. congruence.
  - intros info b m. apply already_enriched_body.
Qed.

Lemma enricher_adds_absent_fields_only_witness :
  let s := Examples.start
             (Examples.post "/" [("Content-Type", "application/json")]
                Examples.original_content) in
  let once := content_enricher_plugin.enrichBodyContent Std.lib Examples.enricher s in
  let twice := content_enricher_plugin.enrichBodyContent Std.lib Examples.enricher
                 (final once) in
  let enriched : gmap string value :=
    {[ "content" := Str "Original content"; "new-body-key" := Str "enrich payload" ]} in
  let again :=
    unread_bytes
      (request
         (final (content_enricher_plugin.HandleRequest Std.lib "v0.3.2" Examples.enricher
                   (final once) Examples.fresh))) in
  unread_bytes (request (final once)) ≠ unread_bytes (request s)
  ∧ (∃ m, body_enriched Std.lib Examples.enricher s once m)
  ∧ unread_bytes (request (final twice)) = unread_bytes (request (final once))
  ∧ (again = unread_bytes (request (final once))
     ∨ json_Marshal Std.lib (Map enriched) = Some again).
Proof.
  intros s once twice enriched again.
  assert (Hchg : unread_bytes (request (final once)) ≠ unread_bytes (request s))
    by (vm_compute; discriminate).
  destruct (enricher_adds_absent_fields_only Std.lib "v0.3.2" Examples.enricher s)
    as (Honly & _ & Hidem & _).
  destruct (Honly Hchg) as [_ [m Hm]].
  split; [exact Hchg|]. split; [by exists m|]. split.
  - apply (Hidem m Hm).
    destruct Hm as (b & e & l & _ & Hb & _ & Hp & _).
    injection Hb as <-.
    intros m' Hm'. vm_compute in Hm'. injection Hm' as <-.
    vm_compute in Hp. injection Hp as <-. vm_compute. reflexivity.
  - destruct (enricher_adds_absent_fields_only Std.lib "v0.3.2" Examples.enricher
                (final once)) as (_ & _ & _ & Halready).
    apply (Halready Examples.fresh (unread_bytes (request (final once))) enriched).
    + vm_compute. reflexivity.
    + vm_compute. reflexivity.
    + intros key [v Hv].
      change (({[ "new-body-key" := Str "enrich payload" ]} : gmap string value) !! key
              = Some v) in Hv.
      apply lookup_singleton_Some in Hv as [<- _].
      exists (Str "enrich payload"). vm_compute. reflexivity.
Defined.




(** C8, the claim as stated: every request a plugin returns has its
    Content-Length header and [ContentLength] equal to the length of its
    body.  With [Content-Length: "0"] among the configured headers, a
    request that arrives with a body of three bytes and both lengths equal
    to 3 leaves the enricher with the header overwritten and the body as it
    was. *)
Lemma configured_Content_Length_breaks_agreement :
  let plug := content_enricher_plugin.mkPlugin ∅ {[ "Content-Length" := "0" ]} in
  let s := Examples.start
             (Examples.post "/" [("Content-Type", "text/plain")] (bytes_of_string "abc")) in
  lengths_agree (request s)
  ∧ ∃ s', content_enricher_plugin.HandleRequest Std.lib "v0.3.2" plug s Examples.fresh
          = Returns false s'
          ∧ unread_bytes (request s') = bytes_of_string "abc"
          ∧ Header_Get (Headers (request s')) "Content-Length" = "0"
          ∧ ¬ lengths_agree (request s').
Proof.
  split.
  - split; [by intros b|]. by vm_compute.
  - eexists. split; [by vm_compute|]. split; [by vm_compute|]. split; [by vm_compute|].
    intros (_ & _ & H). vm_compute in H. discriminate.
Qed.

(** C8, amended.  Each handler keeps the agreement between the
    Content-Length header, [ContentLength] and the length of the body: a
    request that arrives with the three in agreement leaves the
    segment-proxy handler with them in agreement, and leaves the enricher
    so provided no configured header is Content-Length.  And whenever a
    handler leaves other bytes in the body than it found (the enricher
    having installed the enriched JSON, the segment-proxy handler the body
    of a navigate event), both lengths are those of the new body. *)
Theorem lengths_follow_the_body (L : GoLib) (RelayRelease : string) (now : Z)
    (plug : content_enricher_plugin.contentEnricherPlugin)
    (s : state) (info : RequestInfo) :
  let after_proxy := request (final (segment_proxy_plugin.HandleRequest L now s info)) in
  let after_enricher :=
    request (final (content_enricher_plugin.HandleRequest L RelayRelease plug s info)) in
  (lengths_agree (request s) → lengths_agree after_proxy)
  ∧ (lengths_agree (request s) → leaves_Content_Length plug → lengths_agree after_enricher)
  ∧ (readable (request s) →
     unread_bytes after_proxy ≠ unread_bytes (request s) → lengths_agree after_proxy)
  ∧ (unread_bytes after_enricher ≠ unread_bytes (request s) → lengths_agree after_enricher).
Proof.
  intros after_proxy after_enricher. split; [|split; [|split]].
  - intros Hagree.
    destruct (segment_proxy_lengths L now s info (proj1 Hagree)) as [Hkept|H]; [|done].
    by eapply lengths_agree_kept.
  - intros Hagree Hleaves.
    destruct (enricher_lengths L RelayRelease plug s info) as [[_ Hkept]|H]; [|done].
    eapply lengths_agree_kept; [by apply Hkept|done].
  - intros Hread Hchg.
    destruct (segment_proxy_lengths L now s info Hread) as [[[Hb _] _]|H]; [|done].
    by destruct Hchg.
  - intros Hchg.
    destruct (enricher_lengths L RelayRelease plug s info) as [[[Hb _] _]|H]; [|done].
    by destruct Hchg.
Qed.

Lemma lengths_follow_the_body_witness :
  let s := Examples.start
             (Examples.post "/rec/bundle/v2" [("Content-Type", "application/json")]
                (Examples.bundle [Examples.event 37 "https://example.com"])) in
  let after_proxy :=
    request (final (segment_proxy_plugin.HandleRequest Std.lib Examples.now s
                      Examples.fresh)) in
  let after_enricher :=
    request (final (content_enricher_plugin.HandleRequest Std.lib "v0.3.2"
                      Examples.enricher s Examples.fresh)) in
  lengths_agree (request s)
  ∧ unread_bytes after_proxy ≠ unread_bytes (request s)
  ∧ unread_bytes after_enricher ≠ unread_bytes (request s)
  ∧ lengths_agree after_proxy
  ∧ lengths_agree after_enricher.
Proof.
  intros s after_proxy after_enricher.
  assert (Hagree : lengths_agree (request s)).
  { split; [by intros b|]. by vm_compute. }
  assert (Hproxy : unread_bytes after_proxy ≠ unread_bytes (request s))
    by (vm_compute; discriminate).
  assert (Henricher : unread_bytes after_enricher ≠ unread_bytes (request s))
    by (vm_compute; discriminate).
  destruct (lengths_follow_the_body Std.lib "v0.3.2" Examples.now Examples.enricher s
              Examples.fresh) as (_ & _ & Hp & He).
  split; [exact Hagree|]. split; [exact Hproxy|]. split; [exact Henricher|].
  split; [exact (Hp (proj1 Hagree) Hproxy)|exact (He Henricher)].
Defined.

(** C9.  A handler that is given [info.Serviced = true] returns [false]
    and leaves the state as it found it: the body stream is not read, no
    header, URL, method or body is changed, nothing is written to the
    response writer (and nothing is logged or sent).  This holds for the
    segment-proxy handler, for the content enricher, and for the variant of
    the segment-proxy handler that fans out. *)
Theorem serviced_request_is_left_alone (L : GoLib) (RelayRelease : string) (now : Z)
    (enricher : content_enricher_plugin.contentEnricherPlugin)
    (proxy : segment_proxy_plugin_fanout.segmentProxyPlugin)
    (s : state) (info : RequestInfo) :
  Serviced info = true →
  segment_proxy_plugin.HandleRequest L now s info = Returns false s
  ∧ content_enricher_plugin.HandleRequest L RelayRelease enricher s info = Returns false s
  ∧ segment_proxy_plugin_fanout.HandleRequest L proxy now s info = Returns false s.
Proof.
  intros Hs.
  unfold segment_proxy_plugin.HandleRequest, content_enricher_plugin.HandleRequest,
    segment_proxy_plugin_fanout.HandleRequest.
  by rewrite Hs.
Qed.

Lemma serviced_request_is_left_alone_witness :
  let s := Examples.start
             (Examples.post "/rec/bundle/v2" [("Content-Type", "application/json")]
                (Examples.bundle [Examples.event 37 "https://example.com"])) in
  let info := mkRequestInfo true in
  Serviced info = true
  ∧ segment_proxy_plugin.HandleRequest Std.lib Examples.now s info = Returns false s
  ∧ content_enricher_plugin.HandleRequest Std.lib "v0.3.2" Examples.enricher s info
    = Returns false s
  ∧ segment_proxy_plugin_fanout.HandleRequest Std.lib
      (segment_proxy_plugin_fanout.mkPlugin Examples.server) Examples.now s info
    = Returns false s.
Proof.
  split; [reflexivity|].
  apply (serviced_request_is_left_alone Std.lib "v0.3.2" Examples.now Examples.enricher
           (segment_proxy_plugin_fanout.mkPlugin Examples.server)).
  reflexivity.
Defined.

(** C10.  The factory reports a malformed body option, and a malformed
    headers option, as an error.  When both options are absent or parse,
    it returns no plugin exactly when they yield no body enrichment and no
    header enrichment, and otherwise it returns the plugin holding the
    configured enrichments. *)
Theorem New_disables_exactly_when_nothing_is_configured (c : config.Section) :
  (∀ err, config.body c = config.Malformed err →
     content_enricher_plugin.New c
     = content_enricher_plugin.factory_error "error parsing body enrichments: %v")
  ∧ (∀ err, (∀ err', config.body c ≠ config.Malformed err') →
       config.headers c = config.Malformed err →
       content_enricher_plugin.New c
       = content_enricher_plugin.factory_error "error parsing header enrichments: %v")
  ∧ ((∀ err, config.body c ≠ config.Malformed err) →
     (∀ err, config.headers c ≠ config.Malformed err) →
     (content_enricher_plugin.New c = content_enricher_plugin.no_plugin
      ↔ configured (config.body c) = ∅ ∧ configured (config.headers c) = ∅)
     ∧ (¬ (configured (config.body c) = ∅ ∧ configured (config.headers c) = ∅) →
        content_enricher_plugin.New c
        = content_enricher_plugin.loaded
            (content_enricher_plugin.mkPlugin (configured (config.body c))
               (configured (config.headers c))))).
Proof.
  split; [|split].
  - intros err Hb. unfold content_enricher_plugin.New. by rewrite Hb.
  - intros err Hb Hh. unfold content_enricher_plugin.New. rewrite Hh.
    destruct (config.body c) as [|err'|b]; [done|by destruct (Hb err')|done].
  - intros Hb Hh. rewrite (New_well_formed c Hb Hh).
    rewrite <- !map_size_empty_iff.
    destruct (bool_decide_reflect (size (configured (config.body c)) = 0%nat)) as [Eb|Eb];
      destruct (bool_decide_reflect (size (configured (config.headers c)) = 0%nat))
        as [Eh|Eh]; simpl; split; try (split; intros; done);
      try (split; [done|intros [? ?]; done]); try (intros H; by destruct H); done.
Qed.

Lemma New_disables_exactly_when_nothing_is_configured_witness :
  content_enricher_plugin.New (config.mkSection (config.Present ∅) config.Absent) = content_enricher_plugin.no_plugin
  ∧ content_enricher_plugin.New (config.mkSection (config.Present {[ "new-body-key" := Str "enrich payload" ]})
           config.Absent)
    = content_enricher_plugin.loaded (content_enricher_plugin.mkPlugin {[ "new-body-key" := Str "enrich payload" ]} ∅)
  ∧ content_enricher_plugin.New (config.mkSection (config.Malformed "not a mapping")
           (config.Present {[ "newhead" := "newvalue" ]}))
    = content_enricher_plugin.factory_error "error parsing body enrichments: %v"
  ∧ content_enricher_plugin.New (config.mkSection (config.Present {[ "new-body-key" := Str "enrich payload" ]})
           (config.Malformed "not a mapping"))
    = content_enricher_plugin.factory_error "error parsing header enrichments: %v".
Proof.
  split; [|split; [|split]].
  - destruct (New_disables_exactly_when_nothing_is_configured
                (config.mkSection (config.Present ∅) config.Absent)) as (_ & _ & T).
    destruct T as [Hiff _]; [intros err; discriminate..|].
    apply Hiff. split; reflexivity.
  - destruct (New_disables_exactly_when_nothing_is_configured
                (config.mkSection
                   (config.Present {[ "new-body-key" := Str "enrich payload" ]})
                   config.Absent)) as (_ & _ & T).
    destruct T as [_ Hload]; [intros err; discriminate..|].
    apply Hload. intros [H _]. exact (map_non_empty_singleton _ _ H).
  - destruct (New_disables_exactly_when_nothing_is_configured
                (config.mkSection (config.Malformed "not a mapping")
                   (config.Present {[ "newhead" := "newvalue" ]}))) as (T & _).
    apply (T "not a mapping"). reflexivity.
  - destruct (New_disables_exactly_when_nothing_is_configured
                (config.mkSection
                   (config.Present {[ "new-body-key" := Str "enrich payload" ]})
                   (config.Malformed "not a mapping"))) as (_ & T & _).
    apply (T "not a mapping"); [intros err; discriminate|reflexivity].
Defined.
